(** * SystemOptimizer: a shallow embedding of [optimizer.py]

    The development follows
    [backend/app/core/optimization/optimizer.py] (class [SystemOptimizer]),
    the three-strategy optimizer of the AD-HTC system: genetic search,
    finite-difference gradient ascent and Pareto enumeration, behind the
    [optimize] facade.

    Reading of the Python data:
    - floats are exact rationals ([Q]); [-np.inf], the initial best
      fitness, is the extra value [NegInf] of [xfloat]; rounding, [nan]
      and overflow are outside this reading. The convergence diagnostic,
      whose verdict turns on the rounding of [np.var], is given a second
      time in IEEE 754 binary64 ([Module Binary64]), and is specified
      there;
    - float power [**] is a parameter [rpow] of the model;
    - dictionaries keyed by strings are [gmap string _], [self.bounds]
      (whose key order matters) is an association list;
    - numpy arrays are lists;
    - the global numpy random generator is an explicit state threaded
      through the code that draws from it ([Rand]);
    - a raised exception is the left injection of the result. *)

From Stdlib Require Import QArith Qabs Qminmax Lqa Lia ZArith Sorted.
From Stdlib Require SpecFloat.
From stdpp Require Import base option list gmap strings.

Open Scope Q_scope.

(** ** Python and numpy primitives *)

Module Py.

(** [x < y] and [x > y] on floats. *)
Definition ltb (x y : Q) : bool := negb (Qle_bool y x).
Definition gtb (x y : Q) : bool := ltb y x.
(** [x != y] on floats. *)
Definition neb (x y : Q) : bool := negb (Qeq_bool x y).

(** [x >= y] and [x <= y] on floats. *)
Definition geb (x y : Q) : bool := Qle_bool y x.
Definition leb (x y : Q) : bool := Qle_bool x y.

(** [d.get(key, default)]. *)
Definition get {V} (d : gmap string V) (key : string) (dflt : V) : V :=
  default dflt (d !! key).

(** [d[key]] on a dictionary of floats. A missing key raises [KeyError]
    in Python; the optimizer only subscripts individuals at the
    variables they were built over, so the default is never returned. *)
Definition getitem (d : gmap string Q) (key : string) : Q :=
  default 0 (d !! key).

(** [name in names] for a list of strings. *)
Definition in_list (name : string) (names : list string) : bool :=
  bool_decide (name ∈ names).

(** Lookup in an insertion-ordered dictionary kept as an association
    list. *)
Fixpoint assoc {V} (key : string) (d : list (string * V)) : option V :=
  match d with
  | [] => None
  | (k, v) :: d' => if bool_decide (k = key) then Some v else assoc key d'
  end.

(** [range(start, stop, step)] for a positive step, as [count] values. *)
Fixpoint range_from (start step count : nat) : list nat :=
  match count with
  | O => []
  | S c => start :: range_from (start + step) step c
  end.

Definition range3 (start stop step : nat) : list nat :=
  range_from start step ((stop - start + (step - 1)) / step)%nat.

(** [sum(l)]. *)
Definition sum (l : list Q) : Q := foldr Qplus 0 l.

(** [np.mean], [np.var] (population variance, [ddof = 0]), in exact
    arithmetic; [Binary64.np_var] is the variance as numpy computes it. *)
Definition np_mean (l : list Q) : Q := sum l / inject_Z (Z.of_nat (length l)).

Definition np_var (l : list Q) : Q :=
  let m := np_mean l in
  np_mean (map (fun x => (x - m) * (x - m)) l).

(** [np.clip(x, lo, hi)] is [minimum(maximum(x, lo), hi)]. *)
Definition np_clip (x lo hi : Q) : Q := Qmin (Qmax x lo) hi.

(** [np.linspace(start, stop, num)]: [start + i * step] with
    [step = (stop - start) / (num - 1)]. *)
Definition np_linspace (start stop : Q) (num : nat) : list Q :=
  let step := (stop - start) / inject_Z (Z.of_nat (num - 1)) in
  map (fun i => start + inject_Z (Z.of_nat i) * step) (seq 0 num).

(** Squared Euclidean norm, and the test [np.linalg.norm(v) < t] stated
    without the square root: for [t > 0] it is [|v|^2 < t^2]. *)
Definition sumsq (v : list Q) : Q := sum (map (fun a => a * a) v).

Definition norm_lt (v : list Q) (t : Q) : bool :=
  ltb 0 t && ltb (sumsq v) (t * t).

(** [np.argmax]: index of the first maximal entry. *)
Fixpoint argmax_from (i best_i : nat) (best : Q) (l : list Q) : nat :=
  match l with
  | [] => best_i
  | x :: l' =>
      if ltb best x then argmax_from (S i) i x l'
      else argmax_from (S i) best_i best l'
  end.

Definition np_argmax (l : list Q) : nat :=
  match l with
  | [] => O
  | x :: l' => argmax_from 1 0 x l'
  end.

(** [l[-n:]]. *)
Definition last_n {A} (n : nat) (l : list A) : list A :=
  drop (length l - n) l.

(** Floats extended with [-np.inf], the initial [best_fitness]. *)
Inductive xfloat := NegInf | Fin (q : Q).

Definition xgtb (x : Q) (b : xfloat) : bool :=
  match b with NegInf => true | Fin q => gtb x q end.

Definition xle (a b : xfloat) : Prop :=
  match a, b with
  | NegInf, _ => True
  | Fin _, NegInf => False
  | Fin x, Fin y => x <= y
  end.

Definition finite (x : xfloat) : option Q :=
  match x with NegInf => None | Fin q => Some q end.

End Py.

Import Py.

(** ** The optimizer object: [SystemOptimizer.__init__] *)

(** [self.bounds], an insertion-ordered dictionary. *)
Definition bounds : list (string * (Q * Q)) :=
  [ ("pressure_ratio", (3.0, 25.0));
    ("max_turbine_temp", (800.0, 1600.0));
    ("compressor_efficiency", (0.75, 0.95));
    ("turbine_efficiency", (0.80, 0.95));
    ("ad_retention_time", (10.0, 40.0));
    ("htc_temperature", (453.0, 523.0));
    ("htc_residence_time", (0.5, 4.0)) ]%string.

Definition reference_power : Q := 100000.
Definition reference_efficiency : Q := 0.35.
Definition reference_cost : Q := 1000.

(** [self.bounds.get(var)] and [self.bounds[var]]; the subscript is only
    ever applied to the keys of [bounds] (see [bounds_getitem_variables]). *)
Definition bounds_lookup (var : string) : option (Q * Q) :=
  assoc var bounds.

Definition bounds_getitem (var : string) : Q * Q :=
  default (0, 0) (bounds_lookup var).

(** [list(self.bounds.keys())]. *)
Definition bounds_keys : list string := map fst bounds.

(** ** Configuration *)

Inductive OptimizationMethod := GENETIC | GRADIENT | PARETO.

(** The [objectives] dictionary: [maximize] and [minimize] read with
    default [[]], [weights] with default [{}]. *)
Record Objectives := {
  maximize : list string;
  minimize : list string;
  weights : gmap string Q
}.

(** The [method] attribute is not checked by the dataclass: it holds a
    member of [OptimizationMethod] or any other Python value, kept here by
    its printed form. *)
Inductive MethodValue :=
| Member (m : OptimizationMethod)
| Other (repr : string).

#[global] Instance OptimizationMethod_eq_dec : EqDecision OptimizationMethod.
Proof. solve_decision. Defined.

#[global] Instance MethodValue_eq_dec : EqDecision MethodValue.
Proof. solve_decision. Defined.

(** [str(config.method)] in the error message. *)
Definition method_repr (m : MethodValue) : string :=
  match m with
  | Member GENETIC => "OptimizationMethod.GENETIC"
  | Member GRADIENT => "OptimizationMethod.GRADIENT"
  | Member PARETO => "OptimizationMethod.PARETO"
  | Other repr => repr
  end.

Record OptimizationConfig := {
  objectives : Objectives;
  constraints : option (gmap string Q);
  method : MethodValue;
  population_size : nat;
  generations : nat;
  mutation_rate : Q
}.

(** ** The random generator

    [np.random] is a global generator: each draw returns a value and
    advances the generator state. The five draws used by the genetic
    search are the operations of [NumpyRandom]. *)

Class NumpyRandom (G : Type) := {
  (** [np.random.uniform(low, high)] *)
  np_random_uniform : Q -> Q -> G -> Q * G;
  (** [np.random.choice(a, size)] for an integer [a]: [size] indices *)
  np_random_choice : nat -> nat -> G -> list nat * G;
  (** [np.random.random()] *)
  np_random_random : G -> Q * G;
  (** [np.random.randint(low, high)] *)
  np_random_randint : nat -> nat -> G -> nat * G;
  (** [np.random.normal(loc, scale)] *)
  np_random_normal : Q -> Q -> G -> Q * G
}.

(** What numpy documents about the ranges of the draws. *)
Record NumpyRandomRanges (G : Type) `{NumpyRandom G} : Prop := {
  uniform_range : forall lo hi g,
    lo <= hi -> lo <= fst (np_random_uniform lo hi g) <= hi;
  choice_range : forall a size g,
    (0 < a)%nat -> Forall (fun i => (i < a)%nat) (fst (np_random_choice a size g));
  choice_length : forall a size g,
    (0 < a)%nat -> length (fst (np_random_choice a size g)) = size
}.

(** Code that draws random numbers: a state monad over the generator. *)
Definition Rand (G A : Type) : Type := G -> A * G.

Definition ret {G A} (a : A) : Rand G A := fun g => (a, g).

Definition bind {G A B} (c : Rand G A) (k : A -> Rand G B) : Rand G B :=
  fun g => let (a, g') := c g in k a g'.

Notation "'let!' x ':=' c 'in' k" := (bind c (fun x => k))
  (at level 10, x name, c at level 100, k at level 200).

(** [for a in l: acc = body(acc, a)] with random draws in the body. *)
Fixpoint for_each {G A S} (l : list A) (body : S -> A -> Rand G S) (acc : S)
  : Rand G S :=
  match l with
  | [] => ret acc
  | a :: l' => let! acc' := body acc a in for_each l' body acc'
  end.

(** ** Results *)

Record Convergence := {
  converged : bool;
  stability : Q;
  final_improvement : option Q
}.

Record Solution := {
  parameters : gmap string Q;
  performance : gmap string Q;
  efficiency : Q;
  power : Q;
  cost : Q
}.

Record GeneticResult := {
  ga_optimized_parameters : gmap string Q;
  ga_fitness_score : xfloat;
  ga_performance_metrics : gmap string Q;
  ga_optimization_method : string;
  ga_generations : nat;
  ga_population_size : nat;
  ga_fitness_history : list xfloat;
  ga_convergence : Convergence
}.

Record GradientResult := {
  gd_optimized_parameters : gmap string Q;
  gd_fitness_score : Q;
  gd_performance_metrics : gmap string Q;
  gd_optimization_method : string;
  gd_iterations : nat;
  gd_fitness_history : list Q;
  gd_convergence : Convergence
}.

Record ParetoResult := {
  pareto_frontier : list Solution;
  all_solutions : list Solution;
  pf_optimization_method : string;
  num_pareto_solutions : nat
}.

Inductive OptimizationResult :=
| Genetic (r : GeneticResult)
| Gradient (r : GradientResult)
| Pareto (r : ParetoResult).

Inductive Exception :=
| ValueError (msg : string)
| AttributeError (msg : string).

Section Model.

(** Float power [b ** e]: not a rational function, so the embedding
    takes it as a parameter. *)
Variable rpow : Q -> Q -> Q.

(** *** [_evaluate_system_performance] *)
Definition _evaluate_system_performance (parameters : gmap string Q)
  : gmap string Q :=
  let pr := get parameters "pressure_ratio" 12.0 in
  let t3 := get parameters "max_turbine_temp" 1400.0 in
  let eta_comp := get parameters "compressor_efficiency" 0.85 in
  let eta_turb := get parameters "turbine_efficiency" 0.88 in
  let rt := get parameters "ad_retention_time" 20.0 in
  let htc_temp := get parameters "htc_temperature" 473.0 in
  let gamma := 1.4 in
  let ideal_eff := 1 - (1 / rpow pr ((gamma - 1) / gamma)) in
  let actual_eff :=
    ideal_eff * eta_comp * eta_turb * (1 - 0.1 * (t3 - 1000) / 1000) in
  let net_power := 100000 * (actual_eff / 0.35) in
  let biogas_yield := if gtb rt 0 then 0.8 * (20 / rt) else 0 in
  let biogas_energy := 50000 * biogas_yield in
  let htc_eff := 0.75 - 0.001 * (htc_temp - 473) in
  let heat_demand := if gtb htc_eff 0 then 20000 / htc_eff else 0 in
  let waste_heat := biogas_energy * 0.6 in
  let self_suff :=
    if gtb heat_demand 0 then Qmin (waste_heat / heat_demand) 1.0 else 0 in
  let specific_cost := 1000 * (1 + 0.1 * (pr - 6) / 6) in
  list_to_map
    [ ("overall_efficiency", actual_eff);
      ("net_power_kw", net_power);
      ("biogas_energy_kw", biogas_energy);
      ("htc_heat_demand_kw", heat_demand);
      ("waste_heat_available_kw", waste_heat);
      ("self_sufficiency_ratio", self_suff);
      ("specific_cost", specific_cost) ]%string.

(** *** [_evaluate_fitness]

    [weighted_fitness] is the body of [_evaluate_fitness] after its
    first line, as a function of the local [performance]. *)
Definition weighted_fitness (performance : gmap string Q)
    (objectives : Objectives) : Q :=
  let fitness := 0.0 in
  let weights := weights objectives in
  (* Efficiency component *)
  let fitness :=
    if in_list "efficiency" (maximize objectives) then
      let weight := get weights "efficiency" 1.0 in
      fitness + weight * get performance "overall_efficiency" 0
    else fitness in
  (* Power component *)
  let fitness :=
    if in_list "power_output" (maximize objectives) then
      let weight := get weights "power_output" 1.0 in
      let normalized_power :=
        get performance "net_power_kw" 0 / reference_power in
      fitness + weight * normalized_power
    else fitness in
  (* Cost component (minimize) *)
  let fitness :=
    if in_list "specific_cost" (minimize objectives) then
      let weight := get weights "specific_cost" 1.0 in
      let normalized_cost :=
        get performance "specific_cost" reference_cost / reference_cost in
      fitness + weight * (1.0 - normalized_cost)
    else fitness in
  (* Self-sufficiency *)
  let fitness :=
    if in_list "self_sufficiency" (maximize objectives) then
      let weight := get weights "self_sufficiency" 1.0 in
      fitness + weight * get performance "self_sufficiency_ratio" 0
    else fitness in
  fitness.

Definition _evaluate_fitness (parameters : gmap string Q)
    (objectives : Objectives) : Q :=
  let performance := _evaluate_system_performance parameters in
  weighted_fitness performance objectives.

(** *** [_check_constraints] *)
Definition _check_constraints (performance constraints : gmap string Q)
  : bool :=
  if match constraints !! "min_efficiency"%string with
     | Some min_efficiency =>
         ltb (get performance "overall_efficiency" 0) min_efficiency
     | None => false
     end
  then false
  else
  if match constraints !! "max_cost"%string with
     | Some max_cost => gtb (get performance "specific_cost" 0) max_cost
     | None => false
     end
  then false
  else
  if match constraints !! "min_self_sufficiency"%string with
     | Some min_self_sufficiency =>
         ltb (get performance "self_sufficiency_ratio" 0)
             min_self_sufficiency
     | None => false
     end
  then false
  else true.

(** *** [_calculate_convergence]

    In exact arithmetic, as the result records of the searches carry it;
    [Binary64._calculate_convergence] is the same function on binary64
    floats. *)
Definition _calculate_convergence (history : list Q) : Convergence :=
  if (length history <? 10)%nat then
    {| converged := false; stability := 0.0; final_improvement := None |}
  else
    let recent := last_n 10 history in
    let variance := np_var recent in
    let first := nth 0 history 0 in
    let final := default 0 (last history) in
    {| converged := ltb variance 1e-6;
       stability := 1.0 / (1.0 + variance);
       final_improvement :=
         Some (if neb first 0 then (final - first) / Qabs first else 0) |}.

(** *** [_array_to_params] *)
Definition _array_to_params (x : list Q) : gmap string Q :=
  list_to_map
    [ ("pressure_ratio", nth 0 x 0);
      ("max_turbine_temp", nth 1 x 0);
      ("compressor_efficiency", nth 2 x 0);
      ("turbine_efficiency", nth 3 x 0);
      ("ad_retention_time", nth 4 x 0);
      ("htc_temperature", nth 5 x 0);
      ("htc_residence_time", nth 6 x 0) ]%string.

(** *** [_numerical_gradient]

    [probe_plus] and [probe_minus] are the local [params_plus] and
    [params_minus] of iteration [i]. *)
Definition probe_plus (x : list Q) (h : Q) (i : nat) : gmap string Q :=
  let x_plus := <[i := nth i x 0 + h]> x in
  _array_to_params x_plus.

Definition probe_minus (x : list Q) (h : Q) (i : nat) : gmap string Q :=
  let x_minus := <[i := nth i x 0 - h]> x in
  _array_to_params x_minus.

Definition _numerical_gradient (x : list Q) (objectives : Objectives)
    (h : Q) : list Q :=
  map (fun i =>
         let params_plus := probe_plus x h i in
         let params_minus := probe_minus x h i in
         let fitness_plus := _evaluate_fitness params_plus objectives in
         let fitness_minus := _evaluate_fitness params_minus objectives in
         (fitness_plus - fitness_minus) / (2 * h))
      (seq 0 (length x)).

(** *** [_gradient_optimization] *)
Definition x0 : list Q := [12.0; 1400.0; 0.85; 0.88; 20.0; 473.0; 2.0].

Definition gradient_bounds : list (Q * Q) :=
  [ bounds_getitem "pressure_ratio";
    bounds_getitem "max_turbine_temp";
    bounds_getitem "compressor_efficiency";
    bounds_getitem "turbine_efficiency";
    bounds_getitem "ad_retention_time";
    bounds_getitem "htc_temperature";
    bounds_getitem "htc_residence_time" ].

Definition learning_rate : Q := 0.1.
Definition max_iterations : nat := 1000.
Definition tolerance : Q := 1e-6.
Definition default_h : Q := 1e-5.

(** [for i, (lower, upper) in enumerate(bounds): x_new[i] = np.clip(...)] *)
Fixpoint apply_bounds (x_new : list Q) (bounds : list (Q * Q)) : list Q :=
  match x_new, bounds with
  | xi :: xs, (lower, upper) :: bs =>
      np_clip xi lower upper :: apply_bounds xs bs
  | _, _ => x_new
  end.

(** The iterate proposed from [x]: lines "Update" and "Apply bounds". *)
Definition propose (objectives : Objectives) (x : list Q) : list Q :=
  let gradient := _numerical_gradient x objectives default_h in
  let x_new := zip_with (fun xi gi => xi + learning_rate * gi) x gradient in
  apply_bounds x_new gradient_bounds.

(** State of the descent loop. [gl_iteration] is the loop variable;
    [gl_break] records that the loop was left through [break]. *)
Record GradientLoop := {
  gl_x : list Q;
  gl_history : list Q;
  gl_iteration : nat;
  gl_break : bool
}.

Fixpoint gradient_loop (objectives : Objectives) (iterations : list nat)
    (st : GradientLoop) : GradientLoop :=
  match iterations with
  | [] => st
  | iteration :: rest =>
      let x := gl_x st in
      let x_new := propose objectives x in
      (* Check convergence *)
      if norm_lt (zip_with Qminus x_new x) tolerance then
        {| gl_x := x; gl_history := gl_history st;
           gl_iteration := iteration; gl_break := true |}
      else
        let x := x_new in
        (* Evaluate and store *)
        let params := _array_to_params x in
        let fitness := _evaluate_fitness params objectives in
        gradient_loop objectives rest
          {| gl_x := x; gl_history := gl_history st ++ [fitness];
             gl_iteration := iteration; gl_break := false |}
  end.

Definition gradient_start : GradientLoop :=
  {| gl_x := x0; gl_history := []; gl_iteration := 0; gl_break := false |}.

Definition gradient_run (objectives : Objectives) : GradientLoop :=
  gradient_loop objectives (seq 0 max_iterations) gradient_start.

(** The value of [x] after [k] passes of the loop. *)
Definition iterate (objectives : Objectives) (k : nat) : list Q :=
  gl_x (gradient_loop objectives (seq 0 k) gradient_start).

Definition _gradient_optimization (config : OptimizationConfig)
  : GradientResult :=
  let st := gradient_run (objectives config) in
  let x := gl_x st in
  let history := gl_history st in
  let final_params := _array_to_params x in
  let performance := _evaluate_system_performance final_params in
  {| gd_optimized_parameters := final_params;
     gd_fitness_score := default 0 (last history);
     gd_performance_metrics := performance;
     gd_optimization_method := "gradient_descent";
     gd_iterations := gl_iteration st + 1;
     gd_fitness_history := history;
     gd_convergence := _calculate_convergence history |}.

(** *** [_pareto_optimization] *)

(** The test of the inner loop: [other] dominates [sol]. *)
Definition dominates (other sol : Solution) : bool :=
  geb (efficiency other) (efficiency sol)
  && geb (power other) (power sol)
  && leb (cost other) (cost sol)
  && (gtb (efficiency other) (efficiency sol)
      || gtb (power other) (power sol)
      || ltb (cost other) (cost sol)).

(** [config.constraints and not self._check_constraints(...)]: [None]
    and the empty dictionary are both falsy. *)
Definition infeasible (constraints : option (gmap string Q))
    (performance : gmap string Q) : bool :=
  match constraints with
  | Some c =>
      negb (bool_decide (c = ∅)) && negb (_check_constraints performance c)
  | None => false
  end.

Definition grid_params (pr tt : Q) : gmap string Q :=
  list_to_map
    [ ("pressure_ratio", pr);
      ("max_turbine_temp", tt);
      ("compressor_efficiency", 0.85);
      ("turbine_efficiency", 0.90);
      ("ad_retention_time", 20.0);
      ("htc_temperature", 473.0);
      ("htc_residence_time", 2.0) ]%string.

Definition n_samples : nat := 50.

Definition sample_solutions (constraints : option (gmap string Q))
  : list Solution :=
  let pressure_ratios := np_linspace 3 25 n_samples in
  let turbine_temps := np_linspace 800 1600 n_samples in
  flat_map (fun pr =>
    flat_map (fun tt =>
      let params := grid_params pr tt in
      let performance := _evaluate_system_performance params in
      if infeasible constraints performance then []
      else
        [ {| parameters := params;
             performance := performance;
             efficiency := get performance "overall_efficiency" 0;
             power := get performance "net_power_kw" 0;
             cost := get performance "specific_cost" 1000 |} ])
      turbine_temps)
    pressure_ratios.

(** "Find Pareto frontier": keep the solutions no other one dominates. *)
Definition find_pareto_frontier (solutions : list Solution)
  : list Solution :=
  List.filter
    (fun sol =>
       let is_dominated := existsb (fun other => dominates other sol) solutions in
       negb is_dominated)
    solutions.

(** [list.sort(key=lambda x: x['efficiency'], reverse=True)]: a stable
    sort, larger efficiency first. *)
Fixpoint insert_by_efficiency (sol : Solution) (sorted : list Solution)
  : list Solution :=
  match sorted with
  | [] => [sol]
  | s :: rest =>
      if ltb (efficiency sol) (efficiency s)
      then s :: insert_by_efficiency sol rest
      else sol :: s :: rest
  end.

Definition sort_by_efficiency (l : list Solution) : list Solution :=
  foldr insert_by_efficiency [] l.

Definition _pareto_optimization (config : OptimizationConfig)
  : ParetoResult :=
  let solutions := sample_solutions (constraints config) in
  let pareto_frontier := find_pareto_frontier solutions in
  let pareto_frontier := sort_by_efficiency pareto_frontier in
  {| pareto_frontier := pareto_frontier;
     all_solutions := solutions;
     pf_optimization_method := "pareto";
     num_pareto_solutions := length pareto_frontier |}.

(** *** [_genetic_optimization] *)
Context {G : Type} {RNG : NumpyRandom G}.

Definition variables : list string := bounds_keys.

(** One pass of the inner loop of "Initialize population". *)
Definition random_individual : Rand G (gmap string Q) :=
  for_each variables
    (fun individual var =>
       let bounds := bounds_getitem var in
       let! value := np_random_uniform (fst bounds) (snd bounds) in
       ret (<[var := value]> individual))
    ∅.

Definition init_population (population_size : nat)
  : Rand G (list (gmap string Q)) :=
  for_each (seq 0 population_size)
    (fun population _ =>
       let! individual := random_individual in
       ret (population ++ [individual]))
    [].

(** The variables that live across generations. *)
Record Evolution := {
  population : list (gmap string Q);
  best_fitness : xfloat;
  best_individual : option (gmap string Q);
  fitness_history : list xfloat
}.

(** "Evaluate fitness": returns [fitness_scores] and the updated best. *)
Definition evaluate_population (objectives : Objectives)
    (population : list (gmap string Q))
    (best_fitness : xfloat) (best_individual : option (gmap string Q))
  : list Q * xfloat * option (gmap string Q) :=
  foldl
    (fun '(fitness_scores, best_fitness, best_individual) individual =>
       let fitness := _evaluate_fitness individual objectives in
       let fitness_scores := fitness_scores ++ [fitness] in
       if xgtb fitness best_fitness
       then (fitness_scores, Fin fitness, Some individual)
       else (fitness_scores, best_fitness, best_individual))
    ([], best_fitness, best_individual)
    population.

(** "Selection (tournament)". *)
Definition tournament (population : list (gmap string Q))
    (fitness_scores : list Q) : Rand G (gmap string Q) :=
  let! tournament_idx := np_random_choice (length population) 3 in
  let tournament_fitness :=
    map (fun i => nth i fitness_scores 0) tournament_idx in
  let winner_idx := nth (np_argmax tournament_fitness) tournament_idx O in
  ret (nth winner_idx population ∅).

Definition selection (population_size : nat)
    (population : list (gmap string Q)) (fitness_scores : list Q)
  : Rand G (list (gmap string Q)) :=
  for_each (seq 0 population_size)
    (fun new_population _ =>
       let! winner := tournament population fitness_scores in
       ret (new_population ++ [winner]))
    [].

(** "Crossover": the two children of one pair. *)
Definition cross (crossover_point : nat) (parent1 parent2 : gmap string Q)
  : gmap string Q * gmap string Q :=
  foldl
    (fun '(child1, child2) '(j, var) =>
       if (j <? crossover_point)%nat
       then (<[var := getitem parent1 var]> child1,
             <[var := getitem parent2 var]> child2)
       else (<[var := getitem parent2 var]> child1,
             <[var := getitem parent1 var]> child2))
    (∅, ∅)
    (imap (fun j var => (j, var)) variables).

Definition crossover (population_size : nat)
    (new_population : list (gmap string Q))
  : Rand G (list (gmap string Q)) :=
  for_each (range3 0 (population_size - 1) 2)
    (fun new_population i =>
       let! r := np_random_random in
       if ltb r 0.8 then
         let! crossover_point := np_random_randint 1 (length variables) in
         let parent1 := nth i new_population ∅ in
         let parent2 := nth (i + 1) new_population ∅ in
         let '(child1, child2) := cross crossover_point parent1 parent2 in
         ret (<[(i + 1)%nat := child2]> (<[i := child1]> new_population))
       else ret new_population)
    new_population.

(** "Mutation". The individuals of [new_population] are distinct
    objects (copies made by the selection, or fresh children), so the
    in-place update of one never shows through another. *)
Definition mutate (mutation_rate : Q) (individual : gmap string Q)
  : Rand G (gmap string Q) :=
  for_each variables
    (fun individual var =>
       let! r := np_random_random in
       if ltb r mutation_rate then
         let bounds := bounds_getitem var in
         let! mutation :=
           np_random_normal 0 ((snd bounds - fst bounds) * 0.1) in
         ret (<[var := np_clip (getitem individual var + mutation)
                               (fst bounds) (snd bounds)]> individual)
       else ret individual)
    individual.

Definition mutation (mutation_rate : Q)
    (new_population : list (gmap string Q))
  : Rand G (list (gmap string Q)) :=
  for_each new_population
    (fun mutated individual =>
       let! individual := mutate mutation_rate individual in
       ret (mutated ++ [individual]))
    [].

(** The body of the evolution loop. *)
Definition generation (config : OptimizationConfig) (st : Evolution)
  : Rand G Evolution :=
  let '(fitness_scores, best_fitness, best_individual) :=
    evaluate_population (objectives config) (population st)
      (best_fitness st) (best_individual st) in
  let fitness_history := fitness_history st ++ [best_fitness] in
  let! new_population :=
    selection (population_size config) (population st) fitness_scores in
  let! new_population := crossover (population_size config) new_population in
  let! new_population := mutation (mutation_rate config) new_population in
  ret {| population := new_population;
         best_fitness := best_fitness;
         best_individual := best_individual;
         fitness_history := fitness_history |}.

Definition evolve (config : OptimizationConfig) (generations : nat)
    (st : Evolution) : Rand G Evolution :=
  for_each (seq 0 generations) (fun st _ => generation config st) st.

Definition initial_evolution (population : list (gmap string Q))
  : Evolution :=
  {| population := population;
     best_fitness := NegInf;
     best_individual := None;
     fitness_history := [] |}.

(** The finite entries of a history. Every entry is finite as soon as
    [best_individual] is set, which is when [_calculate_convergence] is
    reached. *)
Definition finite_values (history : list xfloat) : list Q :=
  omap finite history.

Definition _genetic_optimization (config : OptimizationConfig)
  : Rand G (Exception + GeneticResult) :=
  let! population := init_population (population_size config) in
  let! st :=
    evolve config (generations config) (initial_evolution population) in
  (* Final evaluation *)
  match best_individual st with
  | None =>
      ret (inl (AttributeError "'NoneType' object has no attribute 'get'"))
  | Some best_individual =>
      let performance := _evaluate_system_performance best_individual in
      ret (inr
        {| ga_optimized_parameters := best_individual;
           ga_fitness_score := best_fitness st;
           ga_performance_metrics := performance;
           ga_optimization_method := "genetic_algorithm";
           ga_generations := generations config;
           ga_population_size := population_size config;
           ga_fitness_history := fitness_history st;
           ga_convergence :=
             _calculate_convergence (finite_values (fitness_history st)) |})
  end.

(** *** [optimize] *)
Definition optimize (config : OptimizationConfig)
  : Rand G (Exception + OptimizationResult) :=
  if decide (method config = Member GENETIC) then
    let! r := _genetic_optimization config in
    ret (match r with inl e => inl e | inr r => inr (Genetic r) end)
  else if decide (method config = Member GRADIENT) then
    ret (inr (Gradient (_gradient_optimization config)))
  else if decide (method config = Member PARETO) then
    ret (inr (Pareto (_pareto_optimization config)))
  else
    ret (inl (ValueError
                ("Unknown optimization method: " ++ method_repr (method config)))).

End Model.

(** ** The older copy: [backend/optimization/optimizer.py]

    Its Pareto search samples a 100 x 100 grid over six variables,
    records efficiency and cost only, and compares on those two. *)

Module Legacy.

Record Solution := {
  parameters : gmap string Q;
  performance : gmap string Q;
  efficiency : Q;
  cost : Q
}.

Section Model.

Variable rpow : Q -> Q -> Q.

Definition _evaluate_system_performance (parameters : gmap string Q)
  : gmap string Q :=
  let pr := getitem parameters "pressure_ratio" in
  let t3 := getitem parameters "max_turbine_temp" in
  let eta_comp := getitem parameters "compressor_efficiency" in
  let eta_turb := getitem parameters "turbine_efficiency" in
  let rt := getitem parameters "ad_retention_time" in
  let htc_temp := getitem parameters "htc_temperature" in
  let gamma := 1.4 in
  let ideal_efficiency := 1 - (1 / rpow pr ((gamma - 1) / gamma)) in
  let actual_efficiency :=
    ideal_efficiency * eta_comp * eta_turb * (1 - 0.1 * (t3 - 1000) / 1000) in
  let net_power := 100000 * (actual_efficiency / 0.35) in
  let biogas_yield := 0.8 * (20 / rt) in
  let biogas_energy := 50000 * biogas_yield in
  let htc_efficiency := 0.75 - 0.001 * (htc_temp - 473) in
  let heat_demand := 20000 / htc_efficiency in
  let waste_heat_available := biogas_energy * 0.6 in
  let self_sufficiency :=
    if gtb heat_demand 0 then Qmin (waste_heat_available / heat_demand) 1.0
    else 0 in
  let specific_cost := 1000 * (1 + 0.1 * (pr - 6) / 6) in
  list_to_map
    [ ("overall_efficiency", actual_efficiency);
      ("net_power_kw", net_power);
      ("biogas_energy_kw", biogas_energy);
      ("htc_heat_demand_kw", heat_demand);
      ("waste_heat_available_kw", waste_heat_available);
      ("self_sufficiency_ratio", self_sufficiency);
      ("specific_cost", specific_cost) ]%string.

Definition dominates (other solution : Solution) : bool :=
  geb (efficiency other) (efficiency solution)
  && leb (cost other) (cost solution)
  && (gtb (efficiency other) (efficiency solution)
      || ltb (cost other) (cost solution)).

Definition grid_params (pr tt : Q) : gmap string Q :=
  list_to_map
    [ ("pressure_ratio", pr);
      ("max_turbine_temp", tt);
      ("compressor_efficiency", 0.85);
      ("turbine_efficiency", 0.90);
      ("ad_retention_time", 20.0);
      ("htc_temperature", 473.0) ]%string.

Definition n_samples : nat := 100.

Definition sample_solutions (constraints : option (gmap string Q))
  : list Solution :=
  let pressure_ratios := np_linspace 3 25 n_samples in
  let turbine_temps := np_linspace 800 1500 n_samples in
  flat_map (fun pr =>
    flat_map (fun tt =>
      let params := grid_params pr tt in
      let performance := _evaluate_system_performance params in
      if infeasible constraints performance then []
      else
        [ {| parameters := params;
             performance := performance;
             efficiency := get performance "overall_efficiency" 0;
             cost := get performance "specific_cost" 0 |} ])
      turbine_temps)
    pressure_ratios.

Definition find_pareto_frontier (pareto_solutions : list Solution)
  : list Solution :=
  List.filter
    (fun solution =>
       let is_dominated :=
         existsb (fun other => dominates other solution) pareto_solutions in
       negb is_dominated)
    pareto_solutions.

Fixpoint insert_by_efficiency (sol : Solution) (sorted : list Solution)
  : list Solution :=
  match sorted with
  | [] => [sol]
  | s :: rest =>
      if ltb (efficiency sol) (efficiency s)
      then s :: insert_by_efficiency sol rest
      else sol :: s :: rest
  end.

Definition sort_by_efficiency (l : list Solution) : list Solution :=
  foldr insert_by_efficiency [] l.

(** The [pareto_frontier] entry of the result. *)
Definition _pareto_optimization (constraints : option (gmap string Q))
  : list Solution :=
  sort_by_efficiency (find_pareto_frontier (sample_solutions constraints)).

End Model.

(** The power of a solution, which this copy leaves in the performance
    record. *)
Definition power (s : Solution) : Q := get (performance s) "net_power_kw" 0.
End Legacy.

(** ** A concrete power and a concrete generator

    They make the model executable on concrete inputs: [fixed_pow] is
    [b ** e] rounded down to nine decimals, [lcg] a linear congruential
    generator. *)

Module Run.

(** Largest [r] in [[lo, hi)] with [r ^ k <= n], by bisection. *)
Fixpoint iroot_search (fuel : nat) (k n lo hi : Z) : Z :=
  match fuel with
  | O => lo
  | S fuel' =>
      if (hi - lo <=? 1)%Z then lo
      else
        let mid := ((lo + hi) / 2)%Z in
        if (mid ^ k <=? n)%Z then iroot_search fuel' k n mid hi
        else iroot_search fuel' k n lo mid
  end.

Definition iroot (k n : Z) : Z :=
  iroot_search (S (S (Z.to_nat (Z.log2 n)))) k n 0 (2 ^ (Z.log2 n / k + 1)).

Definition scale : Z := 1000000000.

Definition fixed_pow (b e : Q) : Q :=
  let b := Qred b in
  let e := Qred e in
  let p := Z.abs (Qnum e) in
  let q := Z.pos (Qden e) in
  let n := ((Qnum b ^ p * scale ^ q) / (Z.pos (Qden b) ^ p))%Z in
  let y := Qmake (iroot q n) (Z.to_pos scale) in
  if (Qnum e <? 0)%Z then 1 / y else y.

Definition modulus : Z := 2147483648.

Definition lcg_next (s : Z) : Z := ((1103515245 * s + 12345) mod modulus)%Z.

Definition lcg_unit (s : Z) : Q := Qmake s (Z.to_pos modulus).

Fixpoint lcg_indices (a size : nat) (s : Z) : list nat * Z :=
  match size with
  | O => ([], s)
  | S size' =>
      let s' := lcg_next s in
      let (rest, s'') := lcg_indices a size' s' in
      (Z.to_nat (s' mod Z.of_nat a) :: rest, s'')
  end.

#[global] Instance lcg : NumpyRandom Z := {|
  np_random_uniform lo hi s :=
    let s' := lcg_next s in (lo + (hi - lo) * lcg_unit s', s');
  np_random_choice a size s := lcg_indices a size s;
  np_random_random s := let s' := lcg_next s in (lcg_unit s', s');
  np_random_randint lo hi s :=
    let s' := lcg_next s in
    ((lo + Z.to_nat (s' mod Z.of_nat (hi - lo)))%nat, s');
  np_random_normal loc scale s :=
    let s' := lcg_next s in (loc + scale * (6 * lcg_unit s' - 3), s')
|}.

(** Example objectives. *)
Definition cost_only (weights : gmap string Q) : Objectives :=
  {| maximize := []; minimize := ["specific_cost"%string];
     weights := weights |}.

Definition efficiency_only : Objectives :=
  {| maximize := ["efficiency"%string]; minimize := []; weights := ∅ |}.

Definition no_objectives : Objectives :=
  {| maximize := []; minimize := []; weights := ∅ |}.

(** The cost objective with a weight so small that the first step of
    the descent is shorter than the tolerance. *)
Definition faint_cost : Objectives :=
  cost_only {[ "specific_cost"%string := 1e-6 ]}.

(** The cost objective with a weight that drives the pressure ratio
    to its lower bound in one step. *)
Definition heavy_cost : Objectives :=
  cost_only {[ "specific_cost"%string := 6000 ]}.

(** Three candidate solutions: the second dominates the first, the
    third trades efficiency for cost. *)
Definition candidate (efficiency power cost : Q) : Solution :=
  {| parameters := ∅; performance := ∅; efficiency := efficiency;
     power := power; cost := cost |}.

Definition candidates : list Solution :=
  [candidate 0.30 90 1000; candidate 0.35 100 1000; candidate 0.25 70 900].

Definition make_config (objectives : Objectives)
    (constraints : option (gmap string Q)) (method : MethodValue)
    (population_size generations : nat) : OptimizationConfig :=
  {| objectives := objectives; constraints := constraints;
     method := method; population_size := population_size;
     generations := generations; mutation_rate := 0.1 |}.

End Run.

(** ** The convergence diagnostic in binary64

    [_calculate_convergence] once more, on IEEE 754 binary64 floats
    ([prec = 53], [emax = 1024], round to nearest even), with the
    operations of the Standard Library's [SpecFloat].

    [np.var(recent)] is numpy's [_var]: the sum of the array divided by
    the count, the differences from that mean squared, their sum divided
    by the count. The sums are [np.add.reduce], numpy's pairwise summation:
    fewer than 8 entries are added from left to right; up to 128 entries
    go through eight accumulators [r[0..7]], combined as
    [((r0 + r1) + (r2 + r3)) + ((r4 + r5) + (r6 + r7))], and the entries
    left over after the last full block of eight are added one by one;
    longer arrays are split in two. The array here always has ten
    entries. *)

Module Binary64.

Definition float : Set := SpecFloat.spec_float.

Definition prec : Z := 53.
Definition emax : Z := 1024.

(** [0.0] *)
Definition zero : float := SpecFloat.S754_zero false.

(** The float nearest to an integer. *)
Definition of_Z (n : Z) : float :=
  SpecFloat.binary_normalize prec emax n 0 false.

Definition add : float -> float -> float := SpecFloat.SFadd prec emax.
Definition sub : float -> float -> float := SpecFloat.SFsub prec emax.
Definition mul : float -> float -> float := SpecFloat.SFmul prec emax.
Definition div : float -> float -> float := SpecFloat.SFdiv prec emax.
Definition abs : float -> float := SpecFloat.SFabs.
Definition ltb : float -> float -> bool := SpecFloat.SFltb.

(** [x != y]: true when one side is [nan]. *)
Definition neb (x y : float) : bool := negb (SpecFloat.SFeqb x y).

(** The value of a decimal literal [n / d]: the correctly rounded
    quotient of two integers that are floats themselves ([1e-6] is
    [decimal 1 1000000]), or the float nearest to [n] when [d = 1]. *)
Definition decimal (n : Z) (d : positive) : float :=
  div (of_Z n) (of_Z (Zpos d)).

(** [1.0] *)
Definition one : float := of_Z 1.

(** The block of [pairwise_sum] for 8 to 128 entries. *)
Definition unrolled_sum (a : list float) : float :=
  let n := length a in
  let full := (n - n mod 8)%nat in
  let r :=
    foldl (fun r i => zip_with add r (take 8 (drop i a)))
      (take 8 a) (range3 8 full 8) in
  let r_ := fun j => nth j r zero in
  let res :=
    add (add (add (r_ 0%nat) (r_ 1%nat)) (add (r_ 2%nat) (r_ 3%nat)))
        (add (add (r_ 4%nat) (r_ 5%nat)) (add (r_ 6%nat) (r_ 7%nat))) in
  foldl add res (drop full a).

(** [pairwise_sum]; the recursion halves the array, so [length a] is
    fuel enough and the branch without fuel is never taken. *)
Fixpoint pairwise_sum (fuel : nat) (a : list float) : float :=
  let n := length a in
  if (n <? 8)%nat then foldl add zero a
  else if (n <=? 128)%nat then unrolled_sum a
  else
    match fuel with
    | O => unrolled_sum a
    | S fuel' =>
        let n2 := (n / 2)%nat in
        let n2 := (n2 - n2 mod 8)%nat in
        add (pairwise_sum fuel' (take n2 a)) (pairwise_sum fuel' (drop n2 a))
    end.

(** [np.add.reduce(a)] *)
Definition np_sum (a : list float) : float := pairwise_sum (length a) a.

(** [arrmean] of [_var]: [umr_sum(arr) / rcount]. *)
Definition np_mean (a : list float) : float :=
  div (np_sum a) (of_Z (Z.of_nat (length a))).

(** [np.var(a)], with [ddof = 0]. *)
Definition np_var (a : list float) : float :=
  let arrmean := np_mean a in
  let x := map (fun ai => sub ai arrmean) a in
  let x := map (fun xi => mul xi xi) x in
  div (np_sum x) (of_Z (Z.of_nat (length a))).

Record Convergence := {
  converged : bool;
  stability : float;
  final_improvement : option float
}.

(** [_calculate_convergence]; [else 0] is read as [0.0]. *)
Definition _calculate_convergence (history : list float) : Convergence :=
  if (length history <? 10)%nat then
    {| converged := false; stability := zero; final_improvement := None |}
  else
    let recent := last_n 10 history in
    let variance := np_var recent in
    let first := nth 0 history zero in
    let final := default zero (last history) in
    {| converged := ltb variance (decimal 1 1000000);
       stability := div one (add one variance);
       final_improvement :=
         Some (if neb first zero then div (sub final first) (abs first)
               else zero) |}.

End Binary64.

(** ** Vocabulary of the properties *)

(** [sol] is dominated by [other]: [other] is at least as good on
    efficiency, power and cost, and strictly better on one of them. *)
Definition dominated_by (sol other : Solution) : Prop :=
  efficiency other >= efficiency sol
  /\ power other >= power sol
  /\ cost other <= cost sol
  /\ (efficiency other > efficiency sol
      \/ power other > power sol
      \/ cost other < cost sol).

(** [sol] is dominated by [other] under the three-objective rule, on the
    solutions of the older copy. *)
Definition legacy_dominated_by (sol other : Legacy.Solution) : Prop :=
  Legacy.efficiency other >= Legacy.efficiency sol
  /\ Legacy.power other >= Legacy.power sol
  /\ Legacy.cost other <= Legacy.cost sol
  /\ (Legacy.efficiency other > Legacy.efficiency sol
      \/ Legacy.power other > Legacy.power sol
      \/ Legacy.cost other < Legacy.cost sol).




(** The same for the arrays of the gradient search, entry [i] against
    the [i]-th pair of the local [bounds] list. *)
Definition vector_bounded (slack : Q) (x : list Q) : Prop :=
  Forall2 (fun xi '(lower, upper) => lower - slack <= xi <= upper + slack)
    x gradient_bounds.


(** ** Vocabulary of the further properties *)

(** Larger efficiency first. *)
Definition efficiency_descending (l : list Solution) : Prop :=
  StronglySorted (fun a b => efficiency b <= efficiency a) l.

(** The parameters [_evaluate_system_performance] reads, with the value
    it takes for each when the key is missing. *)
Definition model_defaults : gmap string Q :=
  list_to_map
    [ ("pressure_ratio", 12.0);
      ("max_turbine_temp", 1400.0);
      ("compressor_efficiency", 0.85);
      ("turbine_efficiency", 0.88);
      ("ad_retention_time", 20.0);
      ("htc_temperature", 473.0) ]%string.

(** The metrics every performance record carries. *)
Definition metric_names : list string :=
  [ "overall_efficiency"; "net_power_kw"; "biogas_energy_kw";
    "htc_heat_demand_kw"; "waste_heat_available_kw";
    "self_sufficiency_ratio"; "specific_cost" ]%string.

(** The objective names [_evaluate_fitness] looks for. *)
Definition maximize_names : list string :=
  [ "efficiency"; "power_output"; "self_sufficiency" ]%string.

(** The thresholds [_check_constraints] looks for. *)
Definition constraint_names : list string :=
  [ "min_efficiency"; "max_cost"; "min_self_sufficiency" ]%string.

(** Once something is recorded by the gradient loop, the last entry is
    the fitness at [x]. *)
Definition history_tracks (rpow : Q -> Q -> Q) (objectives : Objectives)
    (st : GradientLoop) : Prop :=
  gl_history st = []
  \/ last (gl_history st)
     = Some (_evaluate_fitness rpow (_array_to_params (gl_x st)) objectives).

(** [best_fitness] is the fitness of [best_individual], or [-inf] while
    there is none. *)
Definition best_consistent (fitness : gmap string Q -> Q)
    (best_fitness : xfloat) (best_individual : option (gmap string Q))
  : Prop :=
  match best_individual with
  | Some b => best_fitness = Fin (fitness b)
  | None => best_fitness = NegInf
  end.

(** [np.random.random()] returns a value of [[0, 1)]. *)
Record NumpyRandomUnit (G : Type) `{NumpyRandom G} : Prop := {
  random_range : forall g, 0 <= fst (np_random_random g) < 1
}.

(** Larger efficiency first, on the solutions of the older copy. *)
Definition legacy_efficiency_descending (l : list Legacy.Solution) : Prop :=
  StronglySorted (fun a b => Legacy.efficiency b <= Legacy.efficiency a) l.

(** * Properties *)

(** ** Small runs of the primitives *)

Example range3_pairs_of_five : range3 0 (5 - 1) 2 = [0; 2]%nat.
Proof. reflexivity. Qed.

Example range3_single : range3 0 (1 - 1) 2 = [].
Proof. reflexivity. Qed.

Example np_argmax_first_maximum : np_argmax [1; 3; 2; 3] = 1%nat.
Proof. reflexivity. Qed.

Example np_linspace_five :
  map Qred (np_linspace 3 25 5) = [3; 17 # 2; 14; 39 # 2; 25].
Proof. reflexivity. Qed.

Example np_clip_cases :
  np_clip 2 3 25 = 3 /\ np_clip 30 3 25 = 25 /\ np_clip 7 3 25 = 7.
Proof. repeat split; reflexivity. Qed.

Example fixed_pow_twelve : Qred (Run.fixed_pow 12 (2 # 7)) = 2.033937009.
Proof. vm_compute. reflexivity. Qed.

(** The fitness of the initial guess of the gradient search when only
    efficiency is maximized is its overall efficiency, about [0.365]. *)
Example fitness_of_initial_guess :
  Qred (_evaluate_fitness Run.fixed_pow (_array_to_params x0)
          Run.efficiency_only)
  = 773384882732 # 2118684384375.
Proof. vm_compute. reflexivity. Qed.

(** ** Comparisons and numpy primitives *)

Lemma ltb_lt x y : ltb x y = true <-> x < y.
Proof.
  unfold ltb. rewrite negb_true_iff. split; intros E.
  - destruct (Qlt_le_dec x y) as [L|L]; [exact L|].
    apply Qle_bool_iff in L. congruence.
  - destruct (Qle_bool y x) eqn:B; [|reflexivity].
    apply Qle_bool_iff in B. lra.
Qed.

Lemma ltb_ge x y : ltb x y = false <-> y <= x.
Proof. unfold ltb. rewrite negb_false_iff. apply Qle_bool_iff. Qed.

Lemma gtb_gt x y : gtb x y = true <-> y < x.
Proof. apply ltb_lt. Qed.

Lemma gtb_le x y : gtb x y = false <-> x <= y.
Proof. apply ltb_ge. Qed.

Lemma geb_ge x y : geb x y = true <-> y <= x.
Proof. apply Qle_bool_iff. Qed.

Lemma leb_le x y : leb x y = true <-> x <= y.
Proof. apply Qle_bool_iff. Qed.

Lemma neb_false x y : neb x y = false <-> x == y.
Proof. unfold neb. rewrite negb_false_iff. apply Qeq_bool_iff. Qed.

Lemma neb_true x y : neb x y = true <-> ~ x == y.
Proof.
  unfold neb. rewrite negb_true_iff. split.
  - intros E H. apply Qeq_bool_iff in H. congruence.
  - intros H. destruct (Qeq_bool x y) eqn:E; [|reflexivity].
    apply Qeq_bool_iff in E. contradiction.
Qed.


Lemma get_insert_eq {V} (d : gmap string V) key v dflt :
  get (<[key := v]> d) key dflt = v.
Proof. unfold get. by rewrite lookup_insert_eq. Qed.

Lemma get_insert_ne {V} (d : gmap string V) key key' v dflt :
  key <> key' -> get (<[key := v]> d) key' dflt = get d key' dflt.
Proof. intros N. unfold get. by rewrite lookup_insert_ne. Qed.

Lemma get_missing {V} (d : gmap string V) key dflt :
  d !! key = None -> get d key dflt = dflt.
Proof. intros E. unfold get. by rewrite E. Qed.

(** ** Convergence diagnostics *)

Lemma last_n_app_exact {A} (prefix l : list A) n :
  length l = n -> last_n n (prefix ++ l) = l.
Proof.
  intros E. unfold last_n. rewrite length_app, E.
  replace (length prefix + n - n)%nat with (length prefix) by lia.
  by rewrite drop_app_length.
Qed.

Lemma np_var_constant v : np_var (repeat v 10) == 0.
Proof. unfold np_var, np_mean. cbn. field. Qed.

#[global] Instance ltb_proper : Proper (Qeq ==> Qeq ==> eq) ltb.
Proof. intros a b E c d F. unfold ltb. by rewrite E, F. Qed.







(** Ten copies of [0.3]: the computed variance is [2^-108], not [0.0], yet
    [1.0 + variance] rounds to [1.0] and the stability is exactly
    [1.0]. *)
Example binary64_small_variance :
  let v := Binary64.decimal 3 10 in
  Binary64.np_var (repeat v 10)
  = SpecFloat.S754_finite false 4503599627370496 (-160)
  /\ Binary64.converged (Binary64._calculate_convergence (repeat v 10))
     = true
  /\ Binary64.stability (Binary64._calculate_convergence (repeat v 10))
     = Binary64.one.
Proof. vm_compute. repeat split. Qed.

(** Ten copies of [1.7e308]: the sum overflows, the variance is [inf]
    and the stability [0.0]. *)
Example binary64_overflow :
  let v := Binary64.decimal (17 * 10 ^ 307) 1 in
  Binary64.np_var (repeat v 10) = SpecFloat.S754_infinity false
  /\ Binary64.converged (Binary64._calculate_convergence (repeat v 10))
     = false
  /\ Binary64.stability (Binary64._calculate_convergence (repeat v 10))
     = Binary64.zero.
Proof. vm_compute. repeat split. Qed.

(** A run with ten entries that have not settled, in exact arithmetic:
    [converged] is false and the improvement is relative to the very
    first entry. *)
Example calculate_convergence_unsettled :
  let c := _calculate_convergence [1; 2; 3; 4; 5; 6; 7; 8; 9; 10] in
  converged c = false
  /\ Qred (stability c) = 4 # 37
  /\ (Qred <$> final_improvement c) = Some 9.
Proof. vm_compute. repeat split; reflexivity. Qed.

(** ** Fitness with metrics missing from the performance record *)

(** C6 (as the code has it). A metric of the [maximize] list that the
    performance record lacks is read as [0]; a missing [specific_cost] is
    read as [reference_cost], so that its term
    [weight * (1 - reference_cost / reference_cost)] adds nothing to the
    fitness. *)
Theorem C6_missing_metrics (performance : gmap string Q)
    (objectives : Objectives) :
  (forall key : string,
     key ∈ ["overall_efficiency"; "net_power_kw"; "self_sufficiency_ratio"]%string ->
     performance !! key = None ->
     weighted_fitness performance objectives
     = weighted_fitness (<[key := 0]> performance) objectives)
  /\ (performance !! "specific_cost"%string = None ->
      weighted_fitness performance objectives
      = weighted_fitness (<["specific_cost"%string := reference_cost]> performance)
          objectives
      /\ weighted_fitness performance objectives
         == weighted_fitness performance
              {| maximize := maximize objectives; minimize := [];
                 weights := weights objectives |}).
Proof.
  split.
  - intros key K E. unfold weighted_fitness.
    rewrite !elem_of_cons, elem_of_nil in K.
    destruct K as [->|[->|[->|[]]]];
      rewrite ?get_insert_eq, ?get_insert_ne by done;
      rewrite ?(get_missing performance _ _ E); reflexivity.
  - intros E. split.
    + unfold weighted_fitness.
      rewrite ?get_insert_eq, ?get_insert_ne by done.
      rewrite ?(get_missing performance _ _ E). reflexivity.
    + unfold weighted_fitness. cbn [maximize minimize weights].
      rewrite (get_missing performance _ _ E).
      replace (in_list "specific_cost" []) with false by reflexivity.
      unfold reference_cost, reference_power.
      repeat match goal with |- context [in_list ?a ?b] =>
        destruct (in_list a b) end; field.
Qed.

Lemma C6_missing_metrics_witness :
  weighted_fitness ∅ (Run.cost_only ∅)
  == weighted_fitness ∅ {| maximize := []; minimize := []; weights := ∅ |}.
Proof.
  apply (proj2 (C6_missing_metrics ∅ (Run.cost_only ∅))). reflexivity.
Defined.

(** With only the cost objective and an empty record the fitness is [0],
    not the weight [1.0] that a default of [0] would give. *)
Lemma C6_counterexample :
  let performance : gmap string Q := ∅ in
  let objectives := Run.cost_only ∅ in
  let weight := get (weights objectives) "specific_cost" 1.0 in
  performance !! "specific_cost"%string = None
  /\ in_list "specific_cost" (minimize objectives) = true
  /\ weighted_fitness performance objectives == 0
  /\ ~ weighted_fitness performance objectives
       == weight * (1 - 0 / reference_cost).
Proof.
  cbv zeta. split; [reflexivity|]. split; [reflexivity|].
  split; [reflexivity|]. vm_compute. discriminate.
Qed.

(** ** Constraint checking *)

(** C7. [_check_constraints] returns [True] exactly when every threshold
    present in [constraints] is met, missing metrics being read as [0];
    with no thresholds it returns [True]. *)
Theorem C7_check_constraints (performance constraints : gmap string Q) :
  (_check_constraints performance constraints = true <->
     (forall min_efficiency,
        constraints !! "min_efficiency"%string = Some min_efficiency ->
        get performance "overall_efficiency" 0 >= min_efficiency)
     /\ (forall max_cost,
           constraints !! "max_cost"%string = Some max_cost ->
           get performance "specific_cost" 0 <= max_cost)
     /\ (forall min_self_sufficiency,
           constraints !! "min_self_sufficiency"%string
             = Some min_self_sufficiency ->
           get performance "self_sufficiency_ratio" 0
             >= min_self_sufficiency))
  /\ _check_constraints performance ∅ = true.
Proof.
  split; [|reflexivity].
  unfold _check_constraints.
  destruct (constraints !! "min_efficiency"%string) as [e|];
    destruct (constraints !! "max_cost"%string) as [c|];
    destruct (constraints !! "min_self_sufficiency"%string) as [s|];
    repeat match goal with
      | |- context [ltb ?a ?b] =>
          let E := fresh "E" in destruct (ltb a b) eqn:E;
          [apply ltb_lt in E | apply ltb_ge in E]
      | |- context [gtb ?a ?b] =>
          let E := fresh "E" in destruct (gtb a b) eqn:E;
          [apply gtb_gt in E | apply gtb_le in E]
      end;
    (split;
     [ intros T; try discriminate T;
       repeat split; intros ? [= <-]; assumption || lra
     | intros (H1 & H2 & H3); try reflexivity; exfalso;
       try (specialize (H1 _ eq_refl)); try (specialize (H2 _ eq_refl));
       try (specialize (H3 _ eq_refl)); lra ]).
Qed.

Lemma C7_check_constraints_witness :
  _check_constraints
    (list_to_map [("overall_efficiency", 0.4); ("specific_cost", 1100)]%string)
    (list_to_map [("min_efficiency", 0.3); ("max_cost", 1200)]%string)
  = true.
Proof.
  apply (proj1 (C7_check_constraints _ _)).
  repeat split; intros t E; vm_compute in E;
    try discriminate E; injection E as <-; vm_compute; discriminate.
Defined.

(** A threshold on cost alone: the record passes at the threshold and
    fails just above it. *)
Example check_constraints_max_cost :
  _check_constraints {[ "specific_cost"%string := 1100 ]}
    {[ "max_cost"%string := 1100 ]} = true
  /\ _check_constraints {[ "specific_cost"%string := 1100.5 ]}
       {[ "max_cost"%string := 1100 ]} = false.
Proof. split; reflexivity. Qed.

(** ** Gradient descent *)

Section Gradient.

Variable rpow : Q -> Q -> Q.

Lemma norm_lt_spec v t :
  norm_lt v t = true <-> 0 < t /\ sumsq v < t * t.
Proof. unfold norm_lt. rewrite andb_true_iff, !ltb_lt. tauto. Qed.

Lemma tolerance_pos : 0 < tolerance.
Proof. reflexivity. Qed.

(** The loop over [range(start, start + len)]: where the loop variable
    ends, and what holds when the loop is left through [break]. *)
Lemma gradient_loop_exit objectives len :
  forall start st,
    (0 < len)%nat ->
    let st' := gradient_loop rpow objectives (seq start len) st in
    (start <= gl_iteration st' < start + len)%nat
    /\ (gl_break st' = true ->
          norm_lt (zip_with Qminus (propose rpow objectives (gl_x st'))
                     (gl_x st')) tolerance = true)
    /\ (gl_break st' = false -> gl_iteration st' = (start + len - 1)%nat).
Proof.
  induction len as [|len IH]; intros start st L; [lia|].
  cbn [seq gradient_loop].
  destruct (norm_lt _ tolerance) eqn:T.
  - cbn [gl_x gl_iteration gl_break].
    split; [lia|]. split; [intros _; exact T | discriminate].
  - destruct len as [|len'].
    + cbn [seq gradient_loop gl_x gl_iteration gl_break].
      split; [lia|]. split; [discriminate | intros _; lia].
    + match goal with |- context [gradient_loop _ _ _ ?s] =>
        specialize (IH (S start) s ltac:(lia)) end.
      cbv zeta in IH. destruct IH as (I1 & I2 & I3).
      split; [lia|]. split; [exact I2 | intros B; rewrite (I3 B); lia].
Qed.

(** Leaving the loop through [break] in its first pass. *)
Lemma gradient_loop_break objectives iteration rest st :
  norm_lt (zip_with Qminus (propose rpow objectives (gl_x st)) (gl_x st))
    tolerance = true ->
  gradient_loop rpow objectives (iteration :: rest) st
  = {| gl_x := gl_x st; gl_history := gl_history st;
       gl_iteration := iteration; gl_break := true |}.
Proof. intros T. cbn [gradient_loop]. by rewrite T. Qed.

Lemma gradient_run_exit objectives :
  let st := gradient_run rpow objectives in
  (gl_iteration st < max_iterations)%nat
  /\ (gl_break st = true ->
        norm_lt (zip_with Qminus (propose rpow objectives (gl_x st))
                   (gl_x st)) tolerance = true)
  /\ (gl_break st = false -> gl_iteration st = (max_iterations - 1)%nat).
Proof.
  unfold gradient_run. generalize gradient_start.
  assert (P : (0 < max_iterations)%nat) by (unfold max_iterations; lia).
  generalize dependent max_iterations. intros n P st.
  destruct (gradient_loop_exit objectives n 0 st P) as (I1 & I2 & I3).
  split; [lia|]. split; [exact I2|].
  intros B. rewrite (I3 B). lia.
Qed.

(** C4. The descent loop runs its body at most [max_iterations = 1000]
    times; when it runs fewer, or more generally whenever it is left
    through [break], the clipped iterate proposed last is closer than
    [tolerance = 1e-6] to the iterate it was proposed from (in squared
    form: [|x_new - x|^2 < tolerance^2]). *)
Theorem C4_gradient_termination (config : OptimizationConfig) :
  let st := gradient_run rpow (objectives config) in
  let r := _gradient_optimization rpow config in
  let x := gl_x st in
  let x_new := propose rpow (objectives config) x in
  max_iterations = 1000%nat
  /\ tolerance == 1e-6
  /\ gd_iterations r = (gl_iteration st + 1)%nat
  /\ gd_optimized_parameters r = _array_to_params x
  /\ (gd_iterations r <= max_iterations)%nat
  /\ ((gd_iterations r < max_iterations)%nat -> gl_break st = true)
  /\ (gl_break st = true ->
        sumsq (zip_with Qminus x_new x) < tolerance * tolerance).
Proof.
  intros st r x x_new.
  destruct (gradient_run_exit (objectives config)) as (I1 & I2 & I3).
  fold st in I1, I2, I3.
  split; [reflexivity|]. split; [reflexivity|].
  split; [reflexivity|]. split; [reflexivity|].
  change (gd_iterations r) with (gl_iteration st + 1)%nat.
  split; [lia|]. split.
  - intros L. destruct (gl_break st); [reflexivity|].
    specialize (I3 eq_refl). lia.
  - intros B. apply I2 in B. apply norm_lt_spec in B. apply B.
Qed.

(** C9. When the first proposed iterate is already closer than the
    tolerance to the initial guess, the loop breaks before recording
    anything: the history is empty, the reported fitness score is [0]
    whatever the fitness at the initial guess, the diagnostics are
    [converged = False], [stability = 0], and the initial guess is
    returned after one iteration. *)
Theorem C9_gradient_first_step (config : OptimizationConfig) :
  sumsq (zip_with Qminus (propose rpow (objectives config) x0) x0)
    < tolerance * tolerance ->
  let r := _gradient_optimization rpow config in
  gd_fitness_history r = []
  /\ gd_fitness_score r = 0
  /\ converged (gd_convergence r) = false
  /\ stability (gd_convergence r) == 0
  /\ final_improvement (gd_convergence r) = None
  /\ gd_iterations r = 1%nat
  /\ gd_optimized_parameters r = _array_to_params x0.
Proof.
  intros H r.
  assert (T : norm_lt (zip_with Qminus (propose rpow (objectives config) x0)
                         x0) tolerance = true).
  { apply norm_lt_spec. split; [apply tolerance_pos | exact H]. }
  assert (E : gradient_run rpow (objectives config)
              = {| gl_x := x0; gl_history := []; gl_iteration := 0;
                   gl_break := true |}).
  { unfold gradient_run.
    replace (seq 0 max_iterations) with (0%nat :: seq 1 999)
      by reflexivity.
    by rewrite gradient_loop_break. }
  subst r. unfold _gradient_optimization. rewrite E.
  cbn [gl_x gl_history gl_iteration gd_fitness_history gd_fitness_score
       gd_convergence gd_iterations gd_optimized_parameters].
  repeat split; reflexivity.
Qed.

End Gradient.

(** Under [heavy_cost] the gradient of the fitness is [-100] along the
    pressure ratio and [0] elsewhere: the first pass moves the pressure
    ratio from [12] to [2], which is clipped to [3]. *)
Example gradient_heavy_cost_first_pass :
  map Qred (iterate Run.fixed_pow Run.heavy_cost 1)
  = [3; 1400; 17 # 20; 22 # 25; 20; 473; 2].
Proof. vm_compute. reflexivity. Qed.

Lemma C4_gradient_termination_witness :
  let objectives := Run.no_objectives in
  let x := gl_x (gradient_run Run.fixed_pow objectives) in
  sumsq (zip_with Qminus (propose Run.fixed_pow objectives x) x)
    < tolerance * tolerance.
Proof.
  apply (C4_gradient_termination Run.fixed_pow
           (Run.make_config Run.no_objectives None (Member GRADIENT) 50 100)).
  vm_compute. reflexivity.
Defined.

(** At the initial guess the fitness under [faint_cost] is not [0], yet
    the reported score is. *)
Lemma C9_gradient_first_step_witness :
  let config :=
    Run.make_config Run.faint_cost None (Member GRADIENT) 50 100 in
  let r := _gradient_optimization Run.fixed_pow config in
  ~ _evaluate_fitness Run.fixed_pow (_array_to_params x0) Run.faint_cost == 0
  /\ gd_fitness_history r = []
  /\ gd_fitness_score r = 0
  /\ converged (gd_convergence r) = false.
Proof.
  cbv zeta. split; [vm_compute; discriminate|].
  destruct (C9_gradient_first_step Run.fixed_pow
              (Run.make_config Run.faint_cost None (Member GRADIENT) 50 100))
    as (H1 & H2 & H3 & _).
  - vm_compute. reflexivity.
  - auto.
Defined.

(** ** The Pareto frontier *)

Lemma dominates_spec other sol :
  dominates other sol = true <-> dominated_by sol other.
Proof.
  unfold dominates, dominated_by.
  rewrite !andb_true_iff, !orb_true_iff, !geb_ge, !leb_le, !gtb_gt, !ltb_lt.
  tauto.
Qed.

Lemma dominated_by_irrefl sol : ~ dominated_by sol sol.
Proof. unfold dominated_by. lra. Qed.

Lemma dominated_by_trans a b c :
  dominated_by a b -> dominated_by b c -> dominated_by a c.
Proof. unfold dominated_by. lra. Qed.

Lemma find_pareto_frontier_spec solutions sol :
  sol ∈ find_pareto_frontier solutions <->
  sol ∈ solutions /\ forall other, other ∈ solutions -> ~ dominated_by sol other.
Proof.
  unfold find_pareto_frontier.
  rewrite list_elem_of_In, filter_In, <- list_elem_of_In.
  rewrite negb_true_iff, <- not_true_iff_false, existsb_exists.
  split; intros [I N]; (split; [exact I|]).
  - intros other O D. apply N. exists other.
    split; [by apply list_elem_of_In | by apply dominates_spec].
  - intros (other & O & D). apply (N other).
    + by apply list_elem_of_In.
    + by apply dominates_spec.
Qed.

Lemma insert_by_efficiency_elem sol sorted s :
  s ∈ insert_by_efficiency sol sorted <-> s = sol \/ s ∈ sorted.
Proof.
  induction sorted as [|t rest IH]; cbn.
  - rewrite list_elem_of_singleton, elem_of_nil. tauto.
  - destruct (ltb _ _); rewrite !elem_of_cons; [rewrite IH|]; tauto.
Qed.

Lemma sort_by_efficiency_elem l s : s ∈ sort_by_efficiency l <-> s ∈ l.
Proof.
  induction l as [|a l IH]; cbn; [reflexivity|].
  rewrite insert_by_efficiency_elem, elem_of_cons, IH. tauto.
Qed.

(** A finite non-empty list of solutions has one that none dominates. *)
Lemma exists_non_dominated solutions :
  solutions <> [] ->
  exists m, m ∈ solutions
            /\ forall other, other ∈ solutions -> ~ dominated_by m other.
Proof.
  induction solutions as [|x l IH]; [done|]. intros _.
  destruct l as [|y l'].
  - exists x. split; [apply list_elem_of_here|].
    intros other O. apply list_elem_of_singleton in O as ->.
    apply dominated_by_irrefl.
  - destruct IH as (m & M & N); [done|].
    destruct (dominates x m) eqn:D.
    + apply dominates_spec in D. exists x.
      split; [apply list_elem_of_here|].
      intros other O. apply elem_of_cons in O as [->|O].
      * apply dominated_by_irrefl.
      * intros X. apply (N other O). by apply (dominated_by_trans m x other).
    + exists m. split; [by apply list_elem_of_further|].
      intros other O. apply elem_of_cons in O as [->|O].
      * intros X. apply dominates_spec in X. congruence.
      * by apply N.
Qed.

Lemma nonempty_elem {A} (l : list A) : l <> [] <-> exists a, a ∈ l.
Proof.
  destruct l as [|a l]; split.
  - done.
  - intros [a I]. by apply elem_of_nil in I.
  - intros _. exists a. apply list_elem_of_here.
  - done.
Qed.

Lemma flat_map_nonempty {A B} (f : A -> list B) (l : list A) :
  l <> [] -> (forall a, f a <> []) -> flat_map f l <> [].
Proof.
  destruct l as [|a l]; [done|]. intros _ F. cbn.
  specialize (F a). destruct (f a); [done|]. discriminate.
Qed.

Lemma np_linspace_length start stop num :
  length (np_linspace start stop num) = num.
Proof. unfold np_linspace. by rewrite length_map, length_seq. Qed.

(** The older copy compares on efficiency and cost only; its power is a
    fixed multiple of its efficiency, so its frontier is free of dominated
    solutions under the three-objective rule as well. *)
Lemma legacy_power rpow constraints s :
  s ∈ Legacy.sample_solutions rpow constraints ->
  Legacy.power s == 100000 * (Legacy.efficiency s / 0.35).
Proof.
  intros I. apply list_elem_of_In in I. unfold Legacy.sample_solutions in I.
  apply in_flat_map in I as (pr & _ & I).
  apply in_flat_map in I as (tt & _ & I).
  destruct (infeasible _ _); [destruct I|].
  destruct I as [<-|[]]. reflexivity.
Qed.

Lemma legacy_dominates_spec other sol :
  Legacy.dominates other sol = true <->
  Legacy.efficiency other >= Legacy.efficiency sol
  /\ Legacy.cost other <= Legacy.cost sol
  /\ (Legacy.efficiency other > Legacy.efficiency sol
      \/ Legacy.cost other < Legacy.cost sol).
Proof.
  unfold Legacy.dominates.
  rewrite !andb_true_iff, !orb_true_iff, !geb_ge, !leb_le, !gtb_gt, !ltb_lt.
  tauto.
Qed.

Lemma legacy_frontier_spec solutions sol :
  sol ∈ Legacy.find_pareto_frontier solutions <->
  sol ∈ solutions
  /\ forall other, other ∈ solutions -> Legacy.dominates other sol = false.
Proof.
  unfold Legacy.find_pareto_frontier.
  rewrite list_elem_of_In, filter_In, <- list_elem_of_In.
  rewrite negb_true_iff, <- not_true_iff_false, existsb_exists.
  split; intros [I N]; (split; [exact I|]).
  - intros other O. apply not_true_iff_false. intros D. apply N.
    exists other. split; [by apply list_elem_of_In | exact D].
  - intros (other & O & D). apply list_elem_of_In in O.
    rewrite (N other O) in D. discriminate.
Qed.

Lemma legacy_insert_elem sol sorted s :
  s ∈ Legacy.insert_by_efficiency sol sorted <-> s = sol \/ s ∈ sorted.
Proof.
  induction sorted as [|t rest IH]; cbn.
  - rewrite list_elem_of_singleton, elem_of_nil. tauto.
  - destruct (ltb _ _); rewrite !elem_of_cons; [rewrite IH|]; tauto.
Qed.

Lemma legacy_sort_elem l s : s ∈ Legacy.sort_by_efficiency l <-> s ∈ l.
Proof.
  induction l as [|a l IH]; cbn; [reflexivity|].
  rewrite legacy_insert_elem, elem_of_cons, IH. tauto.
Qed.

Lemma legacy_non_domination rpow constraints :
  let frontier := Legacy._pareto_optimization rpow constraints in
  Forall (fun A => Forall (fun B => ~ legacy_dominated_by A B) frontier)
    frontier.
Proof.
  unfold Legacy._pareto_optimization.
  apply Forall_forall. intros A HA. apply Forall_forall. intros B HB.
  apply legacy_sort_elem, legacy_frontier_spec in HA.
  apply legacy_sort_elem, legacy_frontier_spec in HB.
  destruct HA as [IA N], HB as [IB _]. specialize (N B IB).
  pose proof (legacy_power rpow constraints A IA) as PA.
  pose proof (legacy_power rpow constraints B IB) as PB.
  intros (E & P & C & S).
  apply not_true_iff_false in N. apply N, legacy_dominates_spec.
  split; [exact E|]. split; [exact C|].
  assert (K : forall e, 100000 * (e / 0.35) == (2000000 # 7) * e)
    by (intros e; field).
  rewrite PA, PB, !K in S.
  destruct S as [S|[S|S]]; [by left | left | by right].
  lra.
Qed.

Section Pareto.

Variable rpow : Q -> Q -> Q.

Lemma sample_solutions_unconstrained :
  sample_solutions rpow None <> [].
Proof.
  unfold sample_solutions.
  assert (N : forall a b, np_linspace a b n_samples <> []).
  { intros a b E. apply (f_equal length) in E.
    rewrite np_linspace_length in E. discriminate E. }
  apply flat_map_nonempty; [apply N|]. intros pr.
  apply flat_map_nonempty; [apply N|]. intros tt. discriminate.
Qed.

(** C1. No solution of the returned Pareto frontier is dominated by
    another solution of the frontier, whatever the objectives and the
    constraints; this holds for the frontier of [optimizer.py] and for the
    frontier of its older copy. *)
Theorem C1_pareto_non_domination (config : OptimizationConfig) :
  (let frontier := pareto_frontier (_pareto_optimization rpow config) in
   Forall (fun A => Forall (fun B => ~ dominated_by A B) frontier) frontier)
  /\ (let frontier := Legacy._pareto_optimization rpow (constraints config) in
      Forall (fun A => Forall (fun B => ~ legacy_dominated_by A B) frontier)
        frontier).
Proof.
  split; [|apply legacy_non_domination].
  unfold _pareto_optimization. cbn [pareto_frontier].
  apply Forall_forall. intros A HA. apply Forall_forall. intros B HB.
  apply sort_by_efficiency_elem, find_pareto_frontier_spec in HA.
  apply sort_by_efficiency_elem, find_pareto_frontier_spec in HB.
  destruct HA as [_ N], HB as [I _]. by apply N.
Qed.

(** C10. Dominance is irreflexive and transitive, so a non-empty list
    of candidates always leaves a non-empty frontier; the frontier of a
    run is non-empty as soon as a candidate survives the constraints, in
    particular when no constraints are given. *)
Theorem C10_frontier_nonempty :
  (forall a, ~ dominated_by a a)
  /\ (forall a b c, dominated_by a b -> dominated_by b c -> dominated_by a c)
  /\ (forall solutions,
        solutions <> [] ->
        sort_by_efficiency (find_pareto_frontier solutions) <> [])
  /\ (forall config,
        let r := _pareto_optimization rpow config in
        all_solutions r <> [] -> pareto_frontier r <> [])
  /\ (forall config,
        constraints config = None ->
        pareto_frontier (_pareto_optimization rpow config) <> []).
Proof.
  assert (F : forall solutions,
             solutions <> [] ->
             sort_by_efficiency (find_pareto_frontier solutions) <> []).
  { intros solutions N.
    destruct (exists_non_dominated solutions N) as (m & M & D).
    apply nonempty_elem. exists m.
    by apply sort_by_efficiency_elem, find_pareto_frontier_spec. }
  split; [apply dominated_by_irrefl|].
  split; [apply dominated_by_trans|].
  split; [exact F|]. split.
  - intros config. unfold _pareto_optimization.
    cbn [pareto_frontier all_solutions]. apply F.
  - intros config C. unfold _pareto_optimization.
    cbn [pareto_frontier]. apply F. rewrite C.
    apply sample_solutions_unconstrained.
Qed.

End Pareto.

Lemma C10_frontier_nonempty_witness :
  sort_by_efficiency (find_pareto_frontier Run.candidates) <> [].
Proof.
  apply (proj1 (proj2 (proj2 (C10_frontier_nonempty Run.fixed_pow)))).
  discriminate.
Defined.

(** Of the three candidates the dominated one is dropped and the other
    two are returned with the more efficient first. *)
Example pareto_frontier_candidates :
  sort_by_efficiency (find_pareto_frontier Run.candidates)
  = [Run.candidate 0.35 100 1000; Run.candidate 0.25 70 900].
Proof. reflexivity. Qed.

(** ** Code that draws random numbers *)

Lemma bind_run {G A B} (c : Rand G A) (k : A -> Rand G B) g :
  bind c k g = k (fst (c g)) (snd (c g)).
Proof. unfold bind. by destruct (c g). Qed.

Lemma for_each_cons {G A S} (a : A) l (body : S -> A -> Rand G S) acc g :
  for_each (a :: l) body acc g
  = for_each l body (fst (body acc a g)) (snd (body acc a g)).
Proof. cbn [for_each]. apply bind_run. Qed.

(** A property of the accumulator that every pass of the body keeps
    holds when the loop ends. *)
Lemma for_each_invariant {G A S} (P : S -> Prop) (l : list A)
    (body : S -> A -> Rand G S) :
  (forall s a g, a ∈ l -> P s -> P (fst (body s a g))) ->
  forall acc g, P acc -> P (fst (for_each l body acc g)).
Proof.
  induction l as [|a l IH]; intros B acc g H; [exact H|].
  rewrite for_each_cons. apply IH.
  - intros s b g' I. apply B. by apply list_elem_of_further.
  - apply B; [apply list_elem_of_here | exact H].
Qed.

(** A loop that appends one element per pass. *)
Lemma for_each_append_length {G A B} (l : list A) (f : A -> Rand G B) :
  forall acc g,
    length (fst (for_each l
                   (fun acc a => let! b := f a in ret (acc ++ [b])) acc g))
    = (length acc + length l)%nat.
Proof.
  induction l as [|a l IH]; intros acc g; [cbn; lia|].
  rewrite for_each_cons, IH, bind_run. cbn. rewrite length_app. cbn. lia.
Qed.

Lemma for_each_append_Forall {G A B} (P : B -> Prop) (l : list A)
    (f : A -> Rand G B) :
  (forall a g, a ∈ l -> P (fst (f a g))) ->
  forall acc g,
    Forall P acc ->
    Forall P (fst (for_each l
                     (fun acc a => let! b := f a in ret (acc ++ [b])) acc g)).
Proof.
  intros F. apply for_each_invariant. intros s a g I H.
  rewrite bind_run. cbn. apply Forall_app. split; [exact H|].
  apply Forall_singleton. by apply F.
Qed.

(** ** The facade *)

Section Facade.

Variable rpow : Q -> Q -> Q.
Context {G : Type} {RNG : NumpyRandom G}.

(** C8. [optimize] runs the genetic, gradient or Pareto strategy when
    [method] is the corresponding member, and for any other value
    raises [ValueError] at once: nothing is evaluated and the random
    generator is left as it was. *)
Theorem C8_optimize_dispatch (config : OptimizationConfig) (g : G) :
  (method config = Member GENETIC ->
     optimize rpow config g
     = (match fst (_genetic_optimization rpow config g) with
        | inl e => inl e
        | inr r => inr (Genetic r)
        end,
        snd (_genetic_optimization rpow config g)))
  /\ (method config = Member GRADIENT ->
        optimize rpow config g
        = (inr (Gradient (_gradient_optimization rpow config)), g))
  /\ (method config = Member PARETO ->
        optimize rpow config g
        = (inr (Pareto (_pareto_optimization rpow config)), g))
  /\ (forall repr,
        method config = Other repr ->
        optimize rpow config g
        = (inl (ValueError ("Unknown optimization method: " ++ repr)), g)).
Proof.
  unfold optimize. repeat split.
  - intros ->. rewrite decide_True by reflexivity. by rewrite bind_run.
  - intros ->. rewrite decide_False by discriminate.
    by rewrite decide_True by reflexivity.
  - intros ->. rewrite !decide_False by discriminate.
    by rewrite decide_True by reflexivity.
  - intros repr ->. by rewrite !decide_False by discriminate.
Qed.

End Facade.

Lemma C8_optimize_dispatch_witness :
  optimize Run.fixed_pow
    (Run.make_config Run.efficiency_only None (Other "annealing") 50 100)
    42%Z
  = (inl (ValueError "Unknown optimization method: annealing"), 42%Z).
Proof.
  apply (C8_optimize_dispatch Run.fixed_pow
           (Run.make_config Run.efficiency_only None (Other "annealing") 50 100)
           42%Z).
  reflexivity.
Defined.

(** ** The genetic search: fitness history *)

Lemma xle_refl a : xle a a.
Proof. destruct a; cbn; [exact I | lra]. Qed.

Lemma xle_trans a b c : xle a b -> xle b c -> xle a c.
Proof. destruct a, b, c; cbn; try tauto; lra. Qed.

Lemma xgtb_true_xle x b : xgtb x b = true -> xle b (Fin x).
Proof.
  destruct b as [|q]; cbn; [done|]. intros H. apply gtb_gt in H. lra.
Qed.





Section Genetic.
Variable rpow : Q -> Q -> Q.
Context {G : Type} {RNG : NumpyRandom G}.


Lemma generation_run config st g :
  let e := evaluate_population rpow (objectives config) (population st)
             (best_fitness st) (best_individual st) in
  let s := selection (population_size config) (population st)
             (fst (fst e)) g in
  let c := crossover (population_size config) (fst s) (snd s) in
  let m := mutation (mutation_rate config) (fst c) (snd c) in
  generation rpow config st g
  = ({| population := fst m;
        best_fitness := snd (fst e);
        best_individual := snd e;
        fitness_history := fitness_history st ++ [snd (fst e)] |}, snd m).
Proof.
  unfold generation.
  destruct (evaluate_population _ _ _ _ _) as [[scores bf] bi].
  cbn [fst snd]. by rewrite !bind_run.
Qed.

Lemma selection_length n pop scores (g : G) :
  length (fst (selection n pop scores g)) = n.
Proof.
  unfold selection. rewrite for_each_append_length, length_seq. cbn. lia.
Qed.

Lemma crossover_length n pop (g : G) :
  length (fst (crossover n pop g)) = length pop.
Proof.
  unfold crossover.
  apply (for_each_invariant (fun l => length l = length pop)); [|done].
  intros s i g' _ L. rewrite bind_run.
  destruct (ltb _ 0.8); [|exact L].
  rewrite bind_run. destruct (cross _ _ _) as [child1 child2].
  cbn. by rewrite !length_insert.
Qed.


Lemma init_population_length n (g : G) :
  length (fst (init_population n g)) = n.
Proof.
  unfold init_population. rewrite for_each_append_length, length_seq.
  cbn. lia.
Qed.





Lemma genetic_run config g :
  let i := init_population (population_size config) g in
  let e := evolve rpow config (generations config)
             (initial_evolution (fst i)) (snd i) in
  _genetic_optimization rpow config g
  = (match best_individual (fst e) with
     | None =>
         inl (AttributeError "'NoneType' object has no attribute 'get'")
     | Some best =>
         inr {| ga_optimized_parameters := best;
                ga_fitness_score := best_fitness (fst e);
                ga_performance_metrics :=
                  _evaluate_system_performance rpow best;
                ga_optimization_method := "genetic_algorithm";
                ga_generations := generations config;
                ga_population_size := population_size config;
                ga_fitness_history := fitness_history (fst e);
                ga_convergence :=
                  _calculate_convergence
                    (finite_values (fitness_history (fst e))) |}
     end, snd e).
Proof.
  unfold _genetic_optimization. rewrite !bind_run. cbv zeta.
  by destruct (best_individual _).
Qed.

End Genetic.



(** Four individuals over three generations, from generator state [42]:
    a result is returned, with one history entry per generation. *)
Example genetic_small_run :
  match fst (_genetic_optimization Run.fixed_pow
               (Run.make_config Run.efficiency_only None (Member GENETIC) 4 3)
               42%Z) with
  | inr r =>
      length (ga_fitness_history r) = 3%nat
      /\ ga_population_size r = 4%nat
      /\ size (ga_optimized_parameters r) = 7%nat
  | inl _ => False
  end.
Proof. vm_compute. repeat split; reflexivity. Qed.

(** With no individual the loop never sets [best_individual], and the
    final evaluation fails on [None]. *)
Example genetic_empty_population :
  fst (_genetic_optimization Run.fixed_pow
         (Run.make_config Run.efficiency_only None (Member GENETIC) 0 3)
         42%Z)
  = inl (AttributeError "'NoneType' object has no attribute 'get'").
Proof. vm_compute. reflexivity. Qed.


(** ** Parameters stay within their bounds *)







Lemma imap_index_snd {A} (f : nat -> nat) (l : list A) :
  (imap (fun j v => (f j, v)) l).*2 = l.
Proof.
  revert f. induction l as [|a l IH]; intros f; [done|].
  cbn. f_equal. apply (IH (f ∘ S)).
Qed.

Lemma nth_Forall {A} (P : A -> Prop) (l : list A) i d :
  Forall P l -> P d -> P (nth i l d).
Proof.
  intros F D. revert i. induction F as [|a l Pa F IH]; intros [|i]; cbn; auto.
Qed.

Lemma nth_Forall_lt {A} (P : A -> Prop) (l : list A) i d :
  Forall P l -> (i < length l)%nat -> P (nth i l d).
Proof.
  intros F. revert i. induction F as [|a l Pa F IH]; intros [|i]; cbn; auto with lia.
Qed.

Lemma range_from_elem start step count i :
  i ∈ range_from start step count ->
  exists k, (k < count)%nat /\ i = (start + k * step)%nat.
Proof.
  revert start. induction count as [|c IH]; intros start; cbn.
  - by intros H%elem_of_nil.
  - intros [->|H]%elem_of_cons.
    + exists O. split; lia.
    + destruct (IH _ H) as (k & K & ->). exists (S k). split; lia.
Qed.










Section Bounds.

Variable rpow : Q -> Q -> Q.
Context {G : Type} {RNG : NumpyRandom G}.
Hypothesis ranges : NumpyRandomRanges G.















Lemma vector_bounded_length slack x :
  vector_bounded slack x -> length x = 7%nat.
Proof. intros F. by apply Forall2_length in F. Qed.







End Bounds.

(** The linear congruential generator respects the ranges. *)
Lemma lcg_next_range s : (0 <= Run.lcg_next s < Run.modulus)%Z.
Proof. unfold Run.lcg_next. apply Z.mod_pos_bound. reflexivity. Qed.

Lemma lcg_unit_range s :
  (0 <= s < Run.modulus)%Z -> 0 <= Run.lcg_unit s <= 1.
Proof.
  intros [L U]. unfold Run.lcg_unit, Qle. cbn. unfold Run.modulus in U. lia.
Qed.

Lemma lcg_indices_spec a size :
  (0 < a)%nat ->
  forall s,
    Forall (fun i => (i < a)%nat) (fst (Run.lcg_indices a size s))
    /\ length (fst (Run.lcg_indices a size s)) = size.
Proof.
  intros A. induction size as [|size IH]; intros s; cbn; [by split|].
  specialize (IH (Run.lcg_next s)).
  destruct (Run.lcg_indices a size (Run.lcg_next s)) as [rest s'].
  cbn in *. destruct IH as [F L]. split; [|by rewrite L].
  constructor; [|exact F].
  pose proof (Z.mod_pos_bound (Run.lcg_next s) (Z.of_nat a)). lia.
Qed.

Lemma lcg_ranges : NumpyRandomRanges Z.
Proof.
  split.
  - intros lo hi s L. cbn.
    pose proof (lcg_unit_range _ (lcg_next_range s)) as U. nra.
  - intros a size s A. by apply lcg_indices_spec.
  - intros a size s A. by apply lcg_indices_spec.
Qed.



(** * Further properties *)

(** ** More on the Pareto search *)

Lemma insert_by_efficiency_sorted sol sorted :
  efficiency_descending sorted ->
  efficiency_descending (insert_by_efficiency sol sorted).
Proof.
  unfold efficiency_descending.
  induction 1 as [|s rest S IH F]; cbn; [repeat constructor|].
  destruct (ltb (efficiency sol) (efficiency s)) eqn:L.
  - apply ltb_lt in L. constructor; [exact IH|].
    apply Forall_forall. intros b I.
    apply insert_by_efficiency_elem in I as [->|I]; [lra|].
    rewrite Forall_forall in F. by apply F.
  - apply ltb_ge in L. constructor; [by constructor|].
    constructor; [exact L|].
    eapply Forall_impl; [exact F|]. cbn. intros b B. lra.
Qed.

Lemma sort_by_efficiency_sorted l :
  efficiency_descending (sort_by_efficiency l).
Proof.
  induction l as [|a l IH]; cbn; [constructor|].
  by apply insert_by_efficiency_sorted.
Qed.

Lemma insert_by_efficiency_perm sol sorted :
  insert_by_efficiency sol sorted ≡ₚ sol :: sorted.
Proof.
  induction sorted as [|s rest IH]; cbn; [done|].
  destruct (ltb _ _); [|done]. rewrite IH. apply Permutation_swap.
Qed.

Lemma sort_by_efficiency_perm l : sort_by_efficiency l ≡ₚ l.
Proof.
  induction l as [|a l IH]; cbn; [done|].
  by rewrite insert_by_efficiency_perm, IH.
Qed.

(** Solutions of one efficiency keep the order they had. *)
Lemma insert_by_efficiency_stable sol sorted e :
  List.filter (fun s => Qeq_bool (efficiency s) e)
    (insert_by_efficiency sol sorted)
  = List.filter (fun s => Qeq_bool (efficiency s) e) (sol :: sorted).
Proof.
  induction sorted as [|s rest IH]; [done|].
  cbn [insert_by_efficiency].
  destruct (ltb (efficiency sol) (efficiency s)) eqn:L; [|done].
  apply ltb_lt in L. cbn [List.filter] in *.
  destruct (Qeq_bool (efficiency sol) e) eqn:A,
           (Qeq_bool (efficiency s) e) eqn:B; rewrite IH; try done.
  apply Qeq_bool_iff in A, B. lra.
Qed.

Lemma sort_by_efficiency_stable l e :
  List.filter (fun s => Qeq_bool (efficiency s) e) (sort_by_efficiency l)
  = List.filter (fun s => Qeq_bool (efficiency s) e) l.
Proof.
  induction l as [|a l IH]; [done|]. cbn [sort_by_efficiency foldr].
  fold (sort_by_efficiency l). rewrite insert_by_efficiency_stable.
  cbn [List.filter]. by rewrite IH.
Qed.

(** Every solution is either kept by the filter or dominated by one that
    is kept. *)
Lemma dominated_by_frontier solutions sol :
  sol ∈ solutions ->
  sol ∈ find_pareto_frontier solutions
  \/ exists m, m ∈ find_pareto_frontier solutions /\ dominated_by sol m.
Proof.
  intros I.
  destruct (existsb (fun other => dominates other sol) solutions) eqn:E.
  - right.
    set (D := List.filter (fun other => dominates other sol) solutions).
    assert (N : D <> []).
    { apply existsb_exists in E as (o & O & Do).
      apply nonempty_elem. exists o.
      apply list_elem_of_In, filter_In. by split. }
    destruct (exists_non_dominated D N) as (m & M & U).
    apply list_elem_of_In, filter_In in M as [M Dm].
    apply list_elem_of_In in M. apply dominates_spec in Dm.
    exists m. split; [|exact Dm].
    apply find_pareto_frontier_spec. split; [exact M|].
    intros other O X. apply (U other); [|exact X].
    apply list_elem_of_In, filter_In. split; [by apply list_elem_of_In|].
    apply dominates_spec. by apply (dominated_by_trans sol m other).
  - left. apply find_pareto_frontier_spec. split; [exact I|].
    intros other O X. apply dominates_spec in X.
    apply not_true_iff_false in E. apply E, existsb_exists.
    exists other. split; [by apply list_elem_of_In | exact X].
Qed.

Lemma flat_map_length_le {A B} (f : A -> list B) (l : list A) k :
  (forall a, (length (f a) <= k)%nat) ->
  (length (flat_map f l) <= length l * k)%nat.
Proof.
  intros F. induction l as [|a l IH]; cbn; [lia|].
  rewrite length_app. specialize (F a). lia.
Qed.

Lemma flat_map_length_eq {A B} (f : A -> list B) (l : list A) k :
  (forall a, length (f a) = k) ->
  length (flat_map f l) = (length l * k)%nat.
Proof.
  intros F. induction l as [|a l IH]; cbn; [lia|].
  rewrite length_app, F. lia.
Qed.

Lemma infeasible_falsy constraints performance :
  constraints = None \/ constraints = Some ∅ ->
  infeasible constraints performance = false.
Proof. by intros [->| ->]. Qed.

Lemma infeasible_checked c performance :
  infeasible (Some c) performance = false ->
  _check_constraints performance c = true.
Proof.
  unfold infeasible. destruct (bool_decide (c = ∅)) eqn:E.
  - apply bool_decide_eq_true in E as ->. reflexivity.
  - cbn. by intros ->%negb_false_iff.
Qed.

Section ParetoMore.

Variable rpow : Q -> Q -> Q.

(** What every sampled solution records. *)
Lemma sample_solutions_elem constraints s :
  s ∈ sample_solutions rpow constraints ->
  exists pr tt,
    pr ∈ np_linspace 3 25 n_samples
    /\ tt ∈ np_linspace 800 1600 n_samples
    /\ parameters s = grid_params pr tt
    /\ performance s = _evaluate_system_performance rpow (parameters s)
    /\ efficiency s = get (performance s) "overall_efficiency" 0
    /\ power s = get (performance s) "net_power_kw" 0
    /\ cost s = get (performance s) "specific_cost" 1000
    /\ infeasible constraints (performance s) = false.
Proof.
  intros I. apply list_elem_of_In in I. unfold sample_solutions in I.
  apply in_flat_map in I as (pr & P & I).
  apply in_flat_map in I as (tt & T & I).
  destruct (infeasible _ _) eqn:F; [destruct I|].
  destruct I as [<-|[]]. exists pr, tt. cbn.
  repeat split; try done; by apply list_elem_of_In.
Qed.


Lemma sample_solutions_length_le constraints :
  (length (sample_solutions rpow constraints) <= 2500)%nat.
Proof.
  unfold sample_solutions.
  pose proof (flat_map_length_le
    (fun pr =>
       flat_map (fun tt =>
         let params := grid_params pr tt in
         let performance := _evaluate_system_performance rpow params in
         if infeasible constraints performance then []
         else
           [ {| parameters := params;
                performance := performance;
                efficiency := get performance "overall_efficiency" 0;
                power := get performance "net_power_kw" 0;
                cost := get performance "specific_cost" 1000 |} ])
         (np_linspace 800 1600 n_samples))
    (np_linspace 3 25 n_samples) 50) as L.
  rewrite np_linspace_length in L. apply L. intros pr.
  pose proof (flat_map_length_le
    (fun tt =>
       let params := grid_params pr tt in
       let performance := _evaluate_system_performance rpow params in
       if infeasible constraints performance then []
       else
         [ {| parameters := params;
              performance := performance;
              efficiency := get performance "overall_efficiency" 0;
              power := get performance "net_power_kw" 0;
              cost := get performance "specific_cost" 1000 |} ])
    (np_linspace 800 1600 n_samples) 1) as M.
  rewrite np_linspace_length in M. apply M. intros tt. cbv zeta.
  destruct (infeasible _ _); cbn; lia.
Qed.

Lemma sample_solutions_length_all constraints :
  constraints = None \/ constraints = Some ∅ ->
  length (sample_solutions rpow constraints) = 2500%nat.
Proof.
  intros C. unfold sample_solutions.
  rewrite (flat_map_length_eq _ _ 50), np_linspace_length; [reflexivity|].
  intros pr.
  rewrite (flat_map_length_eq _ _ 1), np_linspace_length; [reflexivity|].
  intros tt. cbv zeta. by rewrite infeasible_falsy.
Qed.

(** X1. The returned frontier is ordered by efficiency, larger first; it
    holds exactly the solutions the dominance filter kept, each as often
    as the filter kept it, and solutions of equal efficiency stay in the
    order in which they were sampled. *)
Theorem X1_frontier_sorted (config : OptimizationConfig) :
  let r := _pareto_optimization rpow config in
  efficiency_descending (pareto_frontier r)
  /\ pareto_frontier r ≡ₚ find_pareto_frontier (all_solutions r)
  /\ forall e,
       List.filter (fun s => Qeq_bool (efficiency s) e) (pareto_frontier r)
       = List.filter (fun s => Qeq_bool (efficiency s) e)
           (find_pareto_frontier (all_solutions r)).
Proof.
  unfold _pareto_optimization. cbn [pareto_frontier all_solutions].
  split; [apply sort_by_efficiency_sorted|].
  split; [apply sort_by_efficiency_perm | apply sort_by_efficiency_stable].
Qed.

(** X2. The frontier is drawn from the sampled solutions, its reported
    size is its length, and every sampled solution is either on the
    frontier or dominated by a solution that is on it. *)
Theorem X2_frontier_covers (config : OptimizationConfig) :
  let r := _pareto_optimization rpow config in
  Forall (fun s => s ∈ all_solutions r) (pareto_frontier r)
  /\ Forall (fun s =>
               s ∈ pareto_frontier r
               \/ exists m, m ∈ pareto_frontier r /\ dominated_by s m)
       (all_solutions r)
  /\ num_pareto_solutions r = length (pareto_frontier r)
  /\ (num_pareto_solutions r <= length (all_solutions r))%nat.
Proof.
  unfold _pareto_optimization.
  cbn [pareto_frontier all_solutions num_pareto_solutions].
  split; [|split; [|split; [reflexivity|]]].
  - apply Forall_forall. intros s I.
    by apply sort_by_efficiency_elem, find_pareto_frontier_spec in I as [I _].
  - apply Forall_forall. intros s I.
    destruct (dominated_by_frontier _ s I) as [F|(m & F & D)].
    + left. by apply sort_by_efficiency_elem.
    + right. exists m. split; [by apply sort_by_efficiency_elem | exact D].
  - rewrite (Permutation_length (sort_by_efficiency_perm _)).
    unfold find_pareto_frontier. apply filter_length_le.
Qed.

(** X3. When constraints are given, every solution kept in
    [all_solutions], and so every solution of the frontier, passes
    [_check_constraints]. *)
Theorem X3_solutions_feasible (config : OptimizationConfig)
    (c : gmap string Q) :
  constraints config = Some c ->
  let r := _pareto_optimization rpow config in
  Forall (fun s => _check_constraints (performance s) c = true)
    (all_solutions r)
  /\ Forall (fun s => _check_constraints (performance s) c = true)
       (pareto_frontier r).
Proof.
  intros C. unfold _pareto_optimization.
  cbn [pareto_frontier all_solutions]. rewrite C.
  assert (A : Forall (fun s => _check_constraints (performance s) c = true)
                (sample_solutions rpow (Some c))).
  { apply Forall_forall. intros s I.
    apply sample_solutions_elem in I as (pr & tt & _ & _ & _ & _ & _ & _ & _ & F).
    by apply infeasible_checked. }
  split; [exact A|].
  apply Forall_forall. intros s I.
  apply sort_by_efficiency_elem, find_pareto_frontier_spec in I as [I _].
  rewrite Forall_forall in A. by apply A.
Qed.

(** X4. The search never keeps more than the [50 * 50] grid points, and
    keeps all of them when the constraints are [None] or empty. *)
Theorem X4_solutions_count (config : OptimizationConfig) :
  let r := _pareto_optimization rpow config in
  (length (all_solutions r) <= 2500)%nat
  /\ (constraints config = None \/ constraints config = Some ∅ ->
      length (all_solutions r) = 2500%nat).
Proof.
  unfold _pareto_optimization. cbn [all_solutions].
  split; [apply sample_solutions_length_le | apply sample_solutions_length_all].
Qed.

(** X5. On the sampled solutions power is a fixed multiple of efficiency,
    so the power objective never decides dominance: one sampled solution
    dominates another exactly when it does on efficiency and cost
    alone. *)
Theorem X5_power_follows_efficiency (config : OptimizationConfig) :
  let r := _pareto_optimization rpow config in
  Forall (fun s => power s == 100000 * (efficiency s / 0.35))
    (all_solutions r)
  /\ Forall (fun A =>
       Forall (fun B =>
         dominated_by A B <->
         efficiency B >= efficiency A
         /\ cost B <= cost A
         /\ (efficiency B > efficiency A \/ cost B < cost A))
         (all_solutions r))
       (all_solutions r).
Proof.
  unfold _pareto_optimization. cbn [all_solutions].
  assert (P : forall s, s ∈ sample_solutions rpow (constraints config) ->
              power s == (2000000 # 7) * efficiency s).
  { intros s I.
    apply sample_solutions_elem in I as (pr & tt & _ & _ & _ & Hp & He & Hw & _).
    rewrite Hw, He, Hp.
    transitivity (100000 * (get (_evaluate_system_performance rpow (parameters s))
                              "overall_efficiency" 0 / 0.35));
      [reflexivity | field]. }
  split.
  - apply Forall_forall. intros s I. rewrite (P s I). field.
  - apply Forall_forall. intros A IA. apply Forall_forall. intros B IB.
    unfold dominated_by. rewrite (P A IA), (P B IB). split.
    + intros (E & _ & C & [S|[S|S]]); repeat split; auto; left; lra.
    + intros (E & C & S). repeat split; try done; [lra|].
      destruct S as [S|S]; [by left | by right; right].
Qed.

End ParetoMore.

Lemma X3_solutions_feasible_witness :
  let config :=
    Run.make_config Run.efficiency_only
      (Some {[ "max_cost"%string := 1100 ]}) (Member PARETO) 50 100 in
  Forall (fun s =>
            _check_constraints (performance s) {[ "max_cost"%string := 1100 ]}
            = true)
    (all_solutions (_pareto_optimization Run.fixed_pow config)).
Proof.
  exact (proj1 (X3_solutions_feasible Run.fixed_pow
                  (Run.make_config Run.efficiency_only
                     (Some {[ "max_cost"%string := 1100 ]}) (Member PARETO)
                     50 100)
                  {[ "max_cost"%string := 1100 ]} eq_refl)).
Defined.


Lemma X4_solutions_count_witness :
  length (all_solutions
            (_pareto_optimization Run.fixed_pow
               (Run.make_config Run.efficiency_only None (Member PARETO)
                  50 100)))
  = 2500%nat.
Proof.
  apply (proj2 (X4_solutions_count Run.fixed_pow
                  (Run.make_config Run.efficiency_only None (Member PARETO)
                     50 100))).
  left. reflexivity.
Defined.

(** ** The performance model *)

Lemma Qdiv_nonneg a b : 0 <= a -> 0 < b -> 0 <= a / b.
Proof.
  intros A B. unfold Qdiv. apply Qmult_le_0_compat; [exact A|].
  apply Qlt_le_weak, Qinv_lt_0_compat, B.
Qed.

Lemma get_agree {V} (p q : gmap string V) key dflt :
  p !! key = q !! key -> get p key dflt = get q key dflt.
Proof. unfold get. by intros ->. Qed.

Section ModelMore.

Variable rpow : Q -> Q -> Q.

(** Two parameter dictionaries that agree on the six keys the model
    reads give the same record. *)
Lemma model_agree (p q : gmap string Q) :
  (forall key, key ∈ ["pressure_ratio"; "max_turbine_temp";
                      "compressor_efficiency"; "turbine_efficiency";
                      "ad_retention_time"; "htc_temperature"]%string ->
               get p key (get model_defaults key 0)
               = get q key (get model_defaults key 0)) ->
  _evaluate_system_performance rpow p = _evaluate_system_performance rpow q.
Proof.
  intros A. unfold _evaluate_system_performance.
  pose proof (A "pressure_ratio"%string) as A1.
  pose proof (A "max_turbine_temp"%string) as A2.
  pose proof (A "compressor_efficiency"%string) as A3.
  pose proof (A "turbine_efficiency"%string) as A4.
  pose proof (A "ad_retention_time"%string) as A5.
  pose proof (A "htc_temperature"%string) as A6.
  change (get model_defaults "pressure_ratio" 0) with 12.0 in A1.
  change (get model_defaults "max_turbine_temp" 0) with 1400.0 in A2.
  change (get model_defaults "compressor_efficiency" 0) with 0.85 in A3.
  change (get model_defaults "turbine_efficiency" 0) with 0.88 in A4.
  change (get model_defaults "ad_retention_time" 0) with 20.0 in A5.
  change (get model_defaults "htc_temperature" 0) with 473.0 in A6.
  rewrite A1, A2, A3, A4, A5, A6; [reflexivity|..];
    rewrite !elem_of_cons; tauto.
Qed.

(** X6. A parameter the dictionary lacks is read at its default
    ([12.0], [1400.0], [0.85], [0.88], [20.0], [473.0]), and no other key
    is read: in particular the record does not depend on
    [htc_residence_time]. *)
Theorem X6_model_defaults (parameters : gmap string Q) :
  _evaluate_system_performance rpow (parameters ∪ model_defaults)
  = _evaluate_system_performance rpow parameters
  /\ _evaluate_system_performance rpow ∅
     = _evaluate_system_performance rpow model_defaults
  /\ forall key v,
       key ∉ dom model_defaults ->
       _evaluate_system_performance rpow (<[key := v]> parameters)
       = _evaluate_system_performance rpow parameters.
Proof.
  split; [|split].
  - apply model_agree. intros key K. unfold get.
    rewrite lookup_union. destruct (parameters !! key) as [v|]; [by destruct (model_defaults !! key)|].
    rewrite !elem_of_cons, elem_of_nil in K.
    by destruct K as [->|[->|[->|[->|[->|[->|[]]]]]]].
  - apply model_agree. intros key K.
    rewrite !elem_of_cons, elem_of_nil in K.
    by destruct K as [->|[->|[->|[->|[->|[->|[]]]]]]].
  - intros key v N. apply model_agree. intros key' K. apply get_agree.
    apply lookup_insert_ne. intros ->. apply N.
    rewrite !elem_of_cons, elem_of_nil in K.
    destruct K as [->|[->|[->|[->|[->|[->|[]]]]]]]; by apply elem_of_dom.
Qed.

(** X7. For every parameter dictionary with a positive pressure ratio
    the record carries exactly the seven metrics, the self-sufficiency ratio lies in [[0, 1]], the heat and
    biogas figures are not negative, net power is [100000 / 0.35] times
    the efficiency, and the specific cost is the line
    [1000 * (1 + 0.1 * (pr - 6) / 6)] in the pressure ratio. *)
Theorem X7_model_record (parameters : gmap string Q) :
  0 < get parameters "pressure_ratio" 12.0 ->
  let performance := _evaluate_system_performance rpow parameters in
  let pr := get parameters "pressure_ratio" 12.0 in
  dom performance = list_to_set metric_names
  /\ 0 <= get performance "self_sufficiency_ratio" 0 <= 1
  /\ 0 <= get performance "biogas_energy_kw" 0
  /\ 0 <= get performance "waste_heat_available_kw" 0
  /\ 0 <= get performance "htc_heat_demand_kw" 0
  /\ get performance "net_power_kw" 0
     == 100000 * (get performance "overall_efficiency" 0 / 0.35)
  /\ get performance "specific_cost" 0 == 1000 + (50 # 3) * (pr - 6).
Proof.
  intros _. cbv zeta.
  set (rt := get parameters "ad_retention_time" 20.0).
  set (htc_temp := get parameters "htc_temperature" 473.0).
  set (biogas_yield := if gtb rt 0 then 0.8 * (20 / rt) else 0).
  set (htc_eff := 0.75 - 0.001 * (htc_temp - 473)).
  set (heat_demand := if gtb htc_eff 0 then 20000 / htc_eff else 0).
  assert (Y : 0 <= biogas_yield).
  { unfold biogas_yield. destruct (gtb rt 0) eqn:R; [|lra].
    apply gtb_gt in R. pose proof (Qdiv_nonneg 20 rt ltac:(lra) R). lra. }
  assert (D : 0 <= heat_demand).
  { unfold heat_demand. destruct (gtb htc_eff 0) eqn:R; [|lra].
    apply gtb_gt in R. apply Qdiv_nonneg; lra. }
  split; [|split; [|split; [|split; [|split; [|split]]]]].
  - unfold _evaluate_system_performance. cbv zeta.
    rewrite dom_list_to_map_L. reflexivity.
  - change (get (_evaluate_system_performance rpow parameters)
              "self_sufficiency_ratio" 0)
      with (if gtb heat_demand 0
            then Qmin (50000 * biogas_yield * 0.6 / heat_demand) 1.0
            else 0).
    destruct (gtb heat_demand 0) eqn:H; [|lra].
    apply gtb_gt in H. split.
    + apply Q.min_glb; [|lra]. apply Qdiv_nonneg; lra.
    + pose proof (Q.le_min_r (50000 * biogas_yield * 0.6 / heat_demand) 1.0).
      lra.
  - change (get (_evaluate_system_performance rpow parameters)
              "biogas_energy_kw" 0) with (50000 * biogas_yield). lra.
  - change (get (_evaluate_system_performance rpow parameters)
              "waste_heat_available_kw" 0) with (50000 * biogas_yield * 0.6).
    lra.
  - exact D.
  - reflexivity.
  - change (get (_evaluate_system_performance rpow parameters)
              "specific_cost" 0)
      with (1000 * (1 + 0.1 * (get parameters "pressure_ratio" 12.0 - 6) / 6)).
    field.
Qed.

End ModelMore.

Lemma X6_model_defaults_witness :
  _evaluate_system_performance Run.fixed_pow
    (<["htc_residence_time"%string := 4]> (_array_to_params x0))
  = _evaluate_system_performance Run.fixed_pow (_array_to_params x0).
Proof.
  apply (proj2 (proj2 (X6_model_defaults Run.fixed_pow (_array_to_params x0)))).
  apply not_elem_of_dom. reflexivity.
Defined.

(** ** Objective names *)

Lemma in_list_cons_ne name other names :
  other <> name -> in_list name (other :: names) = in_list name names.
Proof.
  intros N. unfold in_list. apply bool_decide_ext.
  rewrite elem_of_cons. split; [intros [E|I]; [congruence | exact I] | by right].
Qed.

(** X8. [_evaluate_fitness] looks for three names in [maximize] and for
    [specific_cost] in [minimize]; any other name, in either list, leaves
    the fitness as it is, and with no recognised name the fitness is
    [0]. *)
Theorem X8_unknown_objectives_ignored (performance : gmap string Q)
    (objectives : Objectives) (name : string) :
  (name ∉ maximize_names ->
     weighted_fitness performance
       {| maximize := name :: maximize objectives;
          minimize := minimize objectives;
          weights := weights objectives |}
     = weighted_fitness performance objectives)
  /\ (name <> "specific_cost"%string ->
      weighted_fitness performance
        {| maximize := maximize objectives;
           minimize := name :: minimize objectives;
           weights := weights objectives |}
      = weighted_fitness performance objectives)
  /\ ((forall n, n ∈ maximize_names -> n ∉ maximize objectives) ->
      "specific_cost"%string ∉ minimize objectives ->
      weighted_fitness performance objectives = 0.0).
Proof.
  split; [|split].
  - intros N. unfold weighted_fitness. cbn [maximize minimize weights].
    unfold maximize_names in N. rewrite !not_elem_of_cons in N.
    destruct N as (N1 & N2 & N3 & _).
    by rewrite !in_list_cons_ne by done.
  - intros N. unfold weighted_fitness. cbn [maximize minimize weights].
    by rewrite in_list_cons_ne by done.
  - intros M C. unfold weighted_fitness, in_list.
    rewrite !bool_decide_eq_false_2; [reflexivity|..]; try exact C;
      apply M; unfold maximize_names; rewrite !elem_of_cons; tauto.
Qed.

(** The example of the configuration's own comment,
    [{'maximize': ['efficiency'], 'minimize': ['cost']}]: [cost] is not a
    recognised name, so only the efficiency counts. *)
Lemma X8_unknown_objectives_ignored_witness :
  weighted_fitness {[ "specific_cost"%string := 1500 ]}
    {| maximize := ["efficiency"%string]; minimize := ["cost"%string];
       weights := ∅ |}
  = weighted_fitness {[ "specific_cost"%string := 1500 ]}
      {| maximize := ["efficiency"%string]; minimize := []; weights := ∅ |}.
Proof.
  apply (proj1 (proj2 (X8_unknown_objectives_ignored
                         {[ "specific_cost"%string := 1500 ]}
                         {| maximize := ["efficiency"%string]; minimize := [];
                            weights := ∅ |} "cost"))).
  discriminate.
Defined.

(** ** Constraints *)

Lemma check_constraints_true (performance constraints : gmap string Q) :
  _check_constraints performance constraints = true <->
  (forall t, constraints !! "min_efficiency"%string = Some t ->
             t <= get performance "overall_efficiency" 0)
  /\ (forall t, constraints !! "max_cost"%string = Some t ->
                get performance "specific_cost" 0 <= t)
  /\ (forall t, constraints !! "min_self_sufficiency"%string = Some t ->
                t <= get performance "self_sufficiency_ratio" 0).
Proof.
  unfold _check_constraints.
  destruct (constraints !! "min_efficiency"%string) as [e|];
    destruct (constraints !! "max_cost"%string) as [c|];
    destruct (constraints !! "min_self_sufficiency"%string) as [s|];
    repeat match goal with
      | |- context [ltb ?a ?b] =>
          let E := fresh "E" in destruct (ltb a b) eqn:E;
          [apply ltb_lt in E | apply ltb_ge in E]
      | |- context [gtb ?a ?b] =>
          let E := fresh "E" in destruct (gtb a b) eqn:E;
          [apply gtb_gt in E | apply gtb_le in E]
      end;
    (split;
     [ intros T; try discriminate T;
       repeat split; intros ? [= <-]; assumption || lra
     | intros (H1 & H2 & H3); try reflexivity; exfalso;
       try (specialize (H1 _ eq_refl)); try (specialize (H2 _ eq_refl));
       try (specialize (H3 _ eq_refl)); lra ]).
Qed.

(** X9. Only the three known thresholds are looked at: a constraint
    under any other name changes nothing. Dropping constraints, or
    loosening thresholds, never turns a feasible record infeasible. *)
Theorem X9_constraints_relax (performance constraints : gmap string Q) :
  (forall name v,
     name ∉ constraint_names ->
     _check_constraints performance (<[name := v]> constraints)
     = _check_constraints performance constraints)
  /\ (forall fewer : gmap string Q,
        fewer ⊆ constraints ->
        _check_constraints performance constraints = true ->
        _check_constraints performance fewer = true)
  /\ (forall looser : gmap string Q,
        (forall t, looser !! "min_efficiency"%string = Some t ->
           exists t', constraints !! "min_efficiency"%string = Some t'
                      /\ t <= t') ->
        (forall t, looser !! "max_cost"%string = Some t ->
           exists t', constraints !! "max_cost"%string = Some t'
                      /\ t' <= t) ->
        (forall t, looser !! "min_self_sufficiency"%string = Some t ->
           exists t', constraints !! "min_self_sufficiency"%string = Some t'
                      /\ t <= t') ->
        _check_constraints performance constraints = true ->
        _check_constraints performance looser = true).
Proof.
  split; [|split].
  - intros name v N. unfold constraint_names in N.
    rewrite !not_elem_of_cons in N. destruct N as (N1 & N2 & N3 & _).
    unfold _check_constraints. by rewrite !lookup_insert_ne by done.
  - intros fewer S T. apply check_constraints_true in T as (T1 & T2 & T3).
    apply check_constraints_true.
    repeat split; intros t E;
      [apply T1 | apply T2 | apply T3]; by eapply lookup_weaken.
  - intros looser L1 L2 L3 T.
    apply check_constraints_true in T as (T1 & T2 & T3).
    apply check_constraints_true. repeat split; intros t E.
    + destruct (L1 t E) as (t' & E' & L). specialize (T1 t' E'). lra.
    + destruct (L2 t E) as (t' & E' & L). specialize (T2 t' E'). lra.
    + destruct (L3 t E) as (t' & E' & L). specialize (T3 t' E'). lra.
Qed.

Lemma X9_constraints_relax_witness :
  _check_constraints
    (list_to_map [("overall_efficiency", 0.4); ("specific_cost", 1100)]%string)
    (<["budget"%string := 5]> {[ "max_cost"%string := 1200 ]})
  = _check_constraints
      (list_to_map [("overall_efficiency", 0.4); ("specific_cost", 1100)]%string)
      {[ "max_cost"%string := 1200 ]}.
Proof.
  apply (proj1 (X9_constraints_relax _ _)).
  unfold constraint_names. rewrite !not_elem_of_cons.
  repeat split; try discriminate. apply not_elem_of_nil.
Defined.

Lemma X7_model_record_witness :
  0 <= get (_evaluate_system_performance Run.fixed_pow ∅)
         "self_sufficiency_ratio" 0 <= 1.
Proof.
  assert (P : 0 < get (∅ : gmap string Q) "pressure_ratio" 12.0)
    by (vm_compute; reflexivity).
  exact (proj1 (proj2 (X7_model_record Run.fixed_pow ∅ P))).
Defined.

(** ** More on the gradient search *)


Lemma fitness_unrecognised performance objectives :
  (forall n, n ∈ maximize_names -> n ∉ maximize objectives) ->
  "specific_cost"%string ∉ minimize objectives ->
  weighted_fitness performance objectives = 0.0.
Proof.
  intros M C. unfold weighted_fitness, in_list.
  rewrite !bool_decide_eq_false_2; [reflexivity|..]; try exact C;
    apply M; unfold maximize_names; rewrite !elem_of_cons; tauto.
Qed.

Section GradientMore.

Variable rpow : Q -> Q -> Q.

(** How many fitness values the loop over [range(start, start + len)]
    records. *)
Lemma gradient_loop_count objectives len :
  forall start st,
    (0 < len)%nat ->
    let st' := gradient_loop rpow objectives (seq start len) st in
    (gl_break st' = true ->
       (length (gl_history st') + start
        = length (gl_history st) + gl_iteration st')%nat)
    /\ (gl_break st' = false ->
          length (gl_history st') = (length (gl_history st) + len)%nat).
Proof.
  induction len as [|len IH]; intros start st L; [lia|].
  cbn [seq gradient_loop].
  destruct (norm_lt _ tolerance) eqn:T.
  - cbn [gl_history gl_iteration gl_break]. split; [lia | discriminate].
  - destruct len as [|len'].
    + cbn [seq gradient_loop gl_history gl_iteration gl_break].
      rewrite length_app. cbn. split; [discriminate | lia].
    + match goal with |- context [gradient_loop _ _ _ ?s] =>
        specialize (IH (S start) s ltac:(lia)) end.
      cbv zeta in IH. cbn [gl_history] in IH. rewrite length_app in IH.
      cbn [length] in IH. destruct IH as [I1 I2].
      split; [intros B; specialize (I1 B); lia
             | intros B; specialize (I2 B); lia].
Qed.

(** The loop only appends to the history. *)
Lemma gradient_loop_appends objectives iterations :
  forall st,
    exists suffix,
      gl_history (gradient_loop rpow objectives iterations st)
      = gl_history st ++ suffix.
Proof.
  induction iterations as [|i rest IH]; intros st.
  - exists []. by rewrite app_nil_r.
  - cbn [gradient_loop]. destruct (norm_lt _ tolerance).
    + exists []. by rewrite app_nil_r.
    + match goal with |- context [gradient_loop _ _ _ ?s] =>
        destruct (IH s) as [suffix E] end.
      rewrite E. cbn [gl_history]. rewrite <- app_assoc. by eexists.
Qed.

Lemma gradient_loop_tracks objectives iterations :
  forall st,
    history_tracks rpow objectives st ->
    history_tracks rpow objectives
      (gradient_loop rpow objectives iterations st).
Proof.
  induction iterations as [|i rest IH]; intros st H; [exact H|].
  cbn [gradient_loop]. destruct (norm_lt _ tolerance); [exact H|].
  apply IH. right. cbn [gl_history gl_x]. by rewrite last_snoc.
Qed.

(** A loop over two ranges in a row. *)
Lemma gradient_loop_app objectives l1 l2 :
  forall st,
    gl_break st = false ->
    gradient_loop rpow objectives (l1 ++ l2) st
    = (let st1 := gradient_loop rpow objectives l1 st in
       if gl_break st1 then st1 else gradient_loop rpow objectives l2 st1).
Proof.
  induction l1 as [|i l1 IH]; intros st B.
  - cbn. by rewrite B.
  - cbn [app gradient_loop]. destruct (norm_lt _ tolerance); [done|].
    by apply IH.
Qed.


(** X11. The number of recorded fitness values and the reported
    iteration count: a run left through [break] reports one iteration
    more than it recorded, a run that used all its passes reports as many
    as it recorded, namely [1000]. *)
Theorem X11_gradient_history_length (config : OptimizationConfig) :
  let st := gradient_run rpow (objectives config) in
  let r := _gradient_optimization rpow config in
  gd_iterations r
  = (length (gd_fitness_history r) + (if gl_break st then 1 else 0))%nat
  /\ (length (gd_fitness_history r) <= 1000)%nat
  /\ (gl_break st = true \/ length (gd_fitness_history r) = 1000%nat).
Proof.
  intros st r.
  assert (P : (0 < max_iterations)%nat) by (unfold max_iterations; lia).
  pose proof (gradient_loop_count (objectives config) max_iterations 0
                gradient_start P) as C.
  pose proof (gradient_run_exit rpow (objectives config)) as X.
  cbv zeta in C, X. unfold gradient_run in X.
  change (gd_iterations r) with (gl_iteration st + 1)%nat.
  change (gd_fitness_history r) with (gl_history st).
  unfold st, gradient_run.
  destruct C as [C1 C2]. destruct X as (X1 & _ & X3).
  destruct (gl_break (gradient_loop rpow (objectives config)
                        (seq 0 max_iterations) gradient_start)) eqn:B.
  - specialize (C1 eq_refl). cbn [gradient_start gl_history length] in C1.
    unfold max_iterations in *. split; [lia|]. split; [lia|by left].
  - specialize (C2 eq_refl). specialize (X3 eq_refl).
    cbn [gradient_start gl_history length] in C2.
    unfold max_iterations in *. split; [lia|]. split; [lia|]. right. lia.
Qed.

(** X12. The performance record returned is the model at the returned
    parameters; and whenever a fitness was recorded, the reported score is
    the fitness of the returned parameters. *)
Theorem X12_gradient_score (config : OptimizationConfig) :
  let r := _gradient_optimization rpow config in
  gd_performance_metrics r
  = _evaluate_system_performance rpow (gd_optimized_parameters r)
  /\ (gd_fitness_history r <> [] ->
      gd_fitness_score r
      = _evaluate_fitness rpow (gd_optimized_parameters r)
          (objectives config)).
Proof.
  cbv zeta. split; [reflexivity|].
  unfold _gradient_optimization.
  cbn [gd_fitness_history gd_fitness_score gd_optimized_parameters].
  unfold gradient_run.
  pose proof (gradient_loop_tracks (objectives config)
                (seq 0 max_iterations) gradient_start (or_introl eq_refl))
    as [E|E]; [by intros N | intros _; by rewrite E].
Qed.

(** X13. Entry [k] of the history is the fitness at the iterate reached
    after [k + 1] passes: the fitness at the initial guess is never
    recorded. *)
Theorem X13_gradient_history_entries (config : OptimizationConfig)
    (k : nat) (f : Q) :
  gd_fitness_history (_gradient_optimization rpow config) !! k = Some f ->
  f = _evaluate_fitness rpow
        (_array_to_params (iterate rpow (objectives config) (S k)))
        (objectives config).
Proof.
  unfold _gradient_optimization. cbn [gd_fitness_history].
  unfold gradient_run, iterate. intros H.
  set (o := objectives config) in *.
  assert (K : (k < max_iterations)%nat).
  { assert (P : (0 < max_iterations)%nat) by (unfold max_iterations; lia).
    pose proof (gradient_loop_count o max_iterations 0 gradient_start P) as C.
    pose proof (gradient_run_exit rpow o) as X.
    cbv zeta in C, X. unfold gradient_run in X.
    apply lookup_lt_Some in H.
    destruct C as [C1 C2]. destruct X as (X1 & _ & _).
    destruct (gl_break (gradient_loop rpow o (seq 0 max_iterations)
                          gradient_start)) eqn:B.
    - specialize (C1 eq_refl). cbn [gradient_start gl_history length] in C1.
      lia.
    - specialize (C2 eq_refl). cbn [gradient_start gl_history length] in C2.
      lia. }
  replace (seq 0 max_iterations)
    with (seq 0 (S k) ++ seq (S k) (max_iterations - S k)) in H.
  2:{ rewrite <- seq_app. f_equal. lia. }
  rewrite gradient_loop_app in H by reflexivity. cbv zeta in H.
  pose proof (gradient_loop_count o (S k) 0 gradient_start ltac:(lia))
    as [C1 C2].
  pose proof (gradient_loop_exit rpow o (S k) 0 gradient_start ltac:(lia))
    as (X1 & _ & _).
  pose proof (gradient_loop_tracks o (seq 0 (S k)) gradient_start
                (or_introl eq_refl)) as T.
  cbv zeta in C1, C2, X1.
  cbn [gradient_start gl_history length] in C1, C2.
  destruct (gl_break (gradient_loop rpow o (seq 0 (S k)) gradient_start))
    eqn:B.
  - specialize (C1 eq_refl). apply lookup_lt_Some in H. lia.
  - specialize (C2 eq_refl).
    destruct (gradient_loop_appends o (seq (S k) (max_iterations - S k))
                (gradient_loop rpow o (seq 0 (S k)) gradient_start))
      as [suffix E].
    rewrite E in H. rewrite lookup_app_l in H by lia.
    destruct T as [T|T]; [rewrite T in C2; cbn in C2; lia|].
    rewrite last_lookup, C2 in T.
    change (Nat.pred (0 + S k)) with k in T.
    rewrite H in T. exact (f_equal (default f) T).
Qed.









(** Under the cost objective alone the fitness is a line in the pressure
    ratio. *)
Lemma cost_fitness (w : gmap string Q) (p : gmap string Q) :
  _evaluate_fitness rpow p (Run.cost_only w)
  == get w "specific_cost" 1.0
     * (6 - get p "pressure_ratio" 12.0) / 60.
Proof.
  unfold _evaluate_fitness, weighted_fitness, Run.cost_only.
  cbn [maximize minimize weights].
  change (in_list "efficiency" []) with false.
  change (in_list "power_output" []) with false.
  change (in_list "self_sufficiency" []) with false.
  change (in_list "specific_cost" ["specific_cost"%string]) with true.
  cbv iota.
  change (get (_evaluate_system_performance rpow p) "specific_cost"
            reference_cost)
    with (1000 * (1 + 0.1 * (get p "pressure_ratio" 12.0 - 6) / 6)).
  unfold reference_cost. field.
Qed.

(** X15. Under the cost objective alone the numerical gradient is exact:
    [- weight / 60] along the pressure ratio and [0] along every other
    variable, at every point within the bounds and for every step [h]
    that keeps the probed pressure ratio positive. *)
Theorem X15_cost_gradient (weights : gmap string Q) (x : list Q) (h : Q) :
  vector_bounded 0 x ->
  0 < h ->
  h < 3 ->
  let weight := get weights "specific_cost" 1.0 in
  Forall2 Qeq (_numerical_gradient rpow x (Run.cost_only weights) h)
    [ - (weight / 60); 0; 0; 0; 0; 0; 0 ].
Proof.
  intros B H0 _ weight.
  assert (L : length x = 7%nat) by (by apply vector_bounded_length in B).
  assert (H : ~ h == 0) by lra.
  clear B. do 8 (destruct x as [|? x]; try discriminate L).
  unfold _numerical_gradient. cbn [length seq map].
  unfold probe_plus, probe_minus.
  repeat constructor; rewrite !cost_fitness; fold weight;
    repeat match goal with
    | |- context [get (_array_to_params (<[?i := ?v]> ?l)) "pressure_ratio" 12.0] =>
        let t := eval cbn in (nth 0 (<[i := v]> l) 0) in
        change (get (_array_to_params (<[i := v]> l)) "pressure_ratio" 12.0)
          with t
    end; cbn [nth]; field; exact H.
Qed.


(** X16. With no recognised objective the fitness is [0] everywhere, the
    gradient vanishes, and the search stops in its first pass: it
    returns the initial guess after one iteration, with an empty history
    and the score [0]. *)
Theorem X16_gradient_without_objectives (config : OptimizationConfig) :
  (forall n, n ∈ maximize_names -> n ∉ maximize (objectives config)) ->
  "specific_cost"%string ∉ minimize (objectives config) ->
  let r := _gradient_optimization rpow config in
  gd_optimized_parameters r = _array_to_params x0
  /\ gd_iterations r = 1%nat
  /\ gd_fitness_history r = []
  /\ gd_fitness_score r = 0
  /\ converged (gd_convergence r) = false.
Proof.
  intros M C r.
  assert (F : forall p, _evaluate_fitness rpow p (objectives config) = 0.0).
  { intros p. unfold _evaluate_fitness. by apply fitness_unrecognised. }
  assert (G : _numerical_gradient rpow x0 (objectives config) default_h
              = map (fun _ => (0.0 - 0.0) / (2 * default_h)) (seq 0 7)).
  { unfold _numerical_gradient. apply map_ext. intros i. by rewrite !F. }
  assert (T : norm_lt (zip_with Qminus (propose rpow (objectives config) x0)
                         x0) tolerance = true).
  { unfold propose. rewrite G. vm_compute. reflexivity. }
  assert (E : gradient_run rpow (objectives config)
              = {| gl_x := x0; gl_history := []; gl_iteration := 0;
                   gl_break := true |}).
  { unfold gradient_run.
    replace (seq 0 max_iterations) with (0%nat :: seq 1 999) by reflexivity.
    by rewrite gradient_loop_break. }
  subst r. unfold _gradient_optimization. rewrite E.
  cbn [gl_x gl_history gl_iteration gd_fitness_history gd_fitness_score
       gd_convergence gd_iterations gd_optimized_parameters].
  repeat split; reflexivity.
Qed.

End GradientMore.

Lemma X12_gradient_score_witness :
  let config := Run.make_config Run.heavy_cost None (Member GRADIENT) 50 100 in
  let r := _gradient_optimization Run.fixed_pow config in
  gd_fitness_score r
  = _evaluate_fitness Run.fixed_pow (gd_optimized_parameters r)
      Run.heavy_cost.
Proof.
  apply (proj2 (X12_gradient_score Run.fixed_pow
                  (Run.make_config Run.heavy_cost None (Member GRADIENT)
                     50 100))).
  vm_compute. discriminate.
Defined.

Lemma X13_gradient_history_entries_witness :
  let config := Run.make_config Run.heavy_cost None (Member GRADIENT) 50 100 in
  exists f,
    gd_fitness_history (_gradient_optimization Run.fixed_pow config) !! 0%nat
    = Some f
    /\ f = _evaluate_fitness Run.fixed_pow
             (_array_to_params (iterate Run.fixed_pow Run.heavy_cost 1))
             Run.heavy_cost.
Proof.
  cbv zeta.
  destruct (gd_fitness_history
              (_gradient_optimization Run.fixed_pow
                 (Run.make_config Run.heavy_cost None (Member GRADIENT)
                    50 100)) !! 0%nat) as [f|] eqn:E;
    [|vm_compute in E; discriminate].
  exists f. split; [reflexivity|].
  exact (X13_gradient_history_entries Run.fixed_pow
           (Run.make_config Run.heavy_cost None (Member GRADIENT) 50 100)
           0 f E).
Defined.


Lemma X15_cost_gradient_witness :
  Forall2 Qeq
    (_numerical_gradient Run.fixed_pow x0
       (Run.cost_only {[ "specific_cost"%string := 6000 ]}) default_h)
    [ - (6000 / 60); 0; 0; 0; 0; 0; 0 ].
Proof.
  assert (B : vector_bounded 0 x0) by (repeat constructor; discriminate).
  exact (X15_cost_gradient Run.fixed_pow
           {[ "specific_cost"%string := 6000 ]} x0 default_h B
           eq_refl eq_refl).
Defined.

Lemma X16_gradient_without_objectives_witness :
  let config := Run.make_config Run.no_objectives None (Member GRADIENT) 50 100 in
  gd_optimized_parameters (_gradient_optimization Run.fixed_pow config)
  = _array_to_params x0.
Proof.
  apply (X16_gradient_without_objectives Run.fixed_pow
           (Run.make_config Run.no_objectives None (Member GRADIENT) 50 100)).
  - intros n _. apply not_elem_of_nil.
  - apply not_elem_of_nil.
Defined.

(** ** More on the genetic search *)

Lemma for_each_app {G A S} (l1 l2 : list A) (body : S -> A -> Rand G S)
    acc g :
  for_each (l1 ++ l2) body acc g
  = for_each l2 body (fst (for_each l1 body acc g))
      (snd (for_each l1 body acc g)).
Proof.
  revert acc g. induction l1 as [|a l1 IH]; intros acc g; [done|].
  cbn [app]. by rewrite !for_each_cons, IH.
Qed.

Lemma for_each_ignore {G A B S} (l : list A) (l' : list B)
    (f : S -> Rand G S) acc g :
  length l = length l' ->
  for_each l (fun s _ => f s) acc g = for_each l' (fun s _ => f s) acc g.
Proof.
  revert l' acc g. induction l as [|a l IH]; intros [|b l'] acc g L;
    try discriminate L; [done|].
  rewrite !for_each_cons. apply IH. by injection L.
Qed.

Lemma xgtb_false_xle x b : xgtb x b = false -> xle (Fin x) b.
Proof.
  destruct b as [|q]; cbn; [discriminate|]. intros H. by apply gtb_le in H.
Qed.

Section GeneticMore.

Variable rpow : Q -> Q -> Q.
Context {G : Type} {RNG : NumpyRandom G}.

Lemma evaluate_population_best objectives pop :
  forall scores bf bi,
    best_consistent (fun p => _evaluate_fitness rpow p objectives) bf bi ->
    let '(scores', bf', bi') :=
      foldl
        (fun '(fitness_scores, best_fitness, best_individual) individual =>
           let fitness := _evaluate_fitness rpow individual objectives in
           let fitness_scores := fitness_scores ++ [fitness] in
           if xgtb fitness best_fitness
           then (fitness_scores, Fin fitness, Some individual)
           else (fitness_scores, best_fitness, best_individual))
        (scores, bf, bi) pop in
    best_consistent (fun p => _evaluate_fitness rpow p objectives) bf' bi'
    /\ Forall (fun ind =>
                 xle (Fin (_evaluate_fitness rpow ind objectives)) bf') pop
    /\ xle bf bf'
    /\ scores'
       = scores ++ map (fun p => _evaluate_fitness rpow p objectives) pop.
Proof.
  induction pop as [|ind pop IH]; intros scores bf bi C.
  - cbn. split; [exact C|]. split; [constructor|].
    split; [apply xle_refl | by rewrite app_nil_r].
  - cbn [foldl]. cbv zeta.
    destruct (xgtb _ bf) eqn:X.
    + match goal with |- context [foldl _ (?s, ?b, ?i) pop] =>
        specialize (IH s b i eq_refl) end.
      destruct (foldl _ _ pop) as [[scores' bf'] bi'].
      destruct IH as (I1 & I2 & I3 & I4).
      split; [exact I1|]. split; [by constructor|].
      split; [eapply xle_trans; [by apply xgtb_true_xle | exact I3]|].
      rewrite I4. cbn. by rewrite <- app_assoc.
    + match goal with |- context [foldl _ (?s, ?b, ?i) pop] =>
        specialize (IH s b i C) end.
      destruct (foldl _ _ pop) as [[scores' bf'] bi'].
      destruct IH as (I1 & I2 & I3 & I4).
      split; [exact I1|]. split.
      { constructor; [|exact I2].
        eapply xle_trans; [by apply xgtb_false_xle | exact I3]. }
      split; [exact I3|].
      rewrite I4. cbn. by rewrite <- app_assoc.
Qed.

Lemma evolve_split config k n st (g : G) :
  evolve rpow config (k + n) st g
  = evolve rpow config n (fst (evolve rpow config k st g))
      (snd (evolve rpow config k st g)).
Proof.
  unfold evolve. rewrite seq_app, for_each_app.
  apply for_each_ignore. by rewrite !length_seq.
Qed.

Lemma evolve_one config st (g : G) :
  evolve rpow config 1 st g = generation rpow config st g.
Proof.
  unfold evolve. cbn [seq]. rewrite for_each_cons. cbn [for_each].
  unfold ret. by destruct (generation rpow config st g).
Qed.

(** What a generation does to the best pair. *)
Lemma generation_best config st (g : G) :
  let fitness := fun p => _evaluate_fitness rpow p (objectives config) in
  let st' := fst (generation rpow config st g) in
  best_consistent fitness (best_fitness st) (best_individual st) ->
  best_consistent fitness (best_fitness st') (best_individual st')
  /\ Forall (fun ind => xle (Fin (fitness ind)) (best_fitness st'))
       (population st)
  /\ xle (best_fitness st) (best_fitness st').
Proof.
  intros fitness st' C. subst st'. rewrite generation_run. cbv zeta.
  cbn [fst best_fitness best_individual].
  pose proof (evaluate_population_best (objectives config) (population st)
                [] _ _ C) as E.
  unfold evaluate_population. revert E.
  destruct (foldl _ _ (population st)) as [[scores bf] bi].
  intros (E1 & E2 & E3 & _). cbn [fst snd]. by repeat split.
Qed.

Lemma evolve_best config n st (g : G) :
  let fitness := fun p => _evaluate_fitness rpow p (objectives config) in
  let st' := fst (evolve rpow config n st g) in
  best_consistent fitness (best_fitness st) (best_individual st) ->
  best_consistent fitness (best_fitness st') (best_individual st')
  /\ xle (best_fitness st) (best_fitness st').
Proof.
  intros fitness st' C. subst st'. unfold evolve.
  apply (for_each_invariant
           (fun s =>
              best_consistent fitness (best_fitness s) (best_individual s)
              /\ xle (best_fitness st) (best_fitness s)));
    [|split; [exact C | apply xle_refl]].
  intros s _ g' _ [Cs Ls].
  destruct (generation_best config s g' Cs) as (C' & _ & L').
  split; [exact C'|]. by eapply xle_trans.
Qed.

(** X17. The score the genetic search reports is the fitness of the
    parameters it returns, the performance record is the model at those
    parameters, and no individual of any generation, the initial
    population included, has a larger fitness. *)
Theorem X17_genetic_best_ever (config : OptimizationConfig) (g : G)
    (r : GeneticResult) :
  fst (_genetic_optimization rpow config g) = inr r ->
  let fitness := fun p => _evaluate_fitness rpow p (objectives config) in
  let i := init_population (population_size config) g in
  ga_fitness_score r = Fin (fitness (ga_optimized_parameters r))
  /\ ga_performance_metrics r
     = _evaluate_system_performance rpow (ga_optimized_parameters r)
  /\ forall k,
       (k < generations config)%nat ->
       Forall (fun ind => xle (Fin (fitness ind)) (ga_fitness_score r))
         (population
            (fst (evolve rpow config k (initial_evolution (fst i)) (snd i)))).
Proof.
  rewrite genetic_run. cbv zeta. cbn [fst].
  set (i := init_population (population_size config) g).
  set (fitness := fun p => _evaluate_fitness rpow p (objectives config)).
  destruct (evolve_best config (generations config)
              (initial_evolution (fst i)) (snd i) eq_refl) as [C _].
  fold fitness in C.
  destruct (best_individual (fst (evolve rpow config (generations config)
                                    (initial_evolution (fst i)) (snd i))))
    as [best|] eqn:B; [|discriminate].
  intros [= <-].
  cbn [ga_fitness_score ga_optimized_parameters ga_performance_metrics].
  split; [exact C|]. split; [reflexivity|].
  intros k K.
  replace (generations config) with (k + (1 + (generations config - S k)))%nat
    by lia.
  rewrite !evolve_split.
  set (stk := evolve rpow config k (initial_evolution (fst i)) (snd i)).
  destruct (evolve_best config k (initial_evolution (fst i)) (snd i) eq_refl)
    as [Ck _].
  fold stk fitness in Ck.
  rewrite evolve_one.
  destruct (generation_best config (fst stk) (snd stk) Ck) as (C1 & F1 & _).
  fold fitness in C1, F1.
  destruct (evolve_best config (generations config - S k)
              (fst (generation rpow config (fst stk) (snd stk)))
              (snd (generation rpow config (fst stk) (snd stk))) C1)
    as [_ L].
  eapply Forall_impl; [exact F1|]. intros ind X.
  exact (xle_trans _ _ _ X L).
Qed.


Lemma gtb_irrefl c : gtb c c = false.
Proof. apply gtb_le. apply Qle_refl. Qed.

(** When every individual has the same fitness, the first one evaluated
    becomes the best and is never replaced. *)
Lemma evaluate_population_constant objectives c pop :
  (forall p, _evaluate_fitness rpow p objectives = c) ->
  forall scores bf bi,
    let '(_, bf', bi') :=
      foldl
        (fun '(fitness_scores, best_fitness, best_individual) individual =>
           let fitness := _evaluate_fitness rpow individual objectives in
           let fitness_scores := fitness_scores ++ [fitness] in
           if xgtb fitness best_fitness
           then (fitness_scores, Fin fitness, Some individual)
           else (fitness_scores, best_fitness, best_individual))
        (scores, bf, bi) pop in
    (bf = Fin c -> bf' = Fin c /\ bi' = bi)
    /\ (bf = NegInf -> forall first, head pop = Some first ->
          bf' = Fin c /\ bi' = Some first).
Proof.
  intros F. induction pop as [|ind pop IH]; intros scores bf bi.
  - cbn. split; [by intros -> | by intros _ first [=]].
  - cbn [foldl]. cbv zeta. rewrite F.
    destruct (xgtb c bf) eqn:X.
    + match goal with |- context [foldl _ (?s, ?b, ?i) pop] =>
        specialize (IH s b i) end.
      destruct (foldl _ _ pop) as [[scores' bf'] bi'].
      destruct IH as [I1 _]. split.
      * intros ->. cbn in X. by rewrite gtb_irrefl in X.
      * intros _ first [= <-]. by apply I1.
    + match goal with |- context [foldl _ (?s, ?b, ?i) pop] =>
        specialize (IH s b i) end.
      destruct (foldl _ _ pop) as [[scores' bf'] bi'].
      destruct IH as [I1 _]. split; [exact I1|].
      intros ->. discriminate X.
Qed.

Lemma generation_constant config c st (g : G) b :
  (forall p, _evaluate_fitness rpow p (objectives config) = c) ->
  best_fitness st = Fin c -> best_individual st = Some b ->
  let st' := fst (generation rpow config st g) in
  best_fitness st' = Fin c /\ best_individual st' = Some b
  /\ fitness_history st' = fitness_history st ++ [Fin c].
Proof.
  intros F Bf Bi st'. subst st'. rewrite generation_run. cbv zeta.
  cbn [fst best_fitness best_individual fitness_history].
  pose proof (evaluate_population_constant (objectives config) c
                (population st) F [] (best_fitness st) (best_individual st))
    as E.
  unfold evaluate_population. revert E.
  destruct (foldl _ _ (population st)) as [[scores bf] bi].
  intros [E _]. destruct (E Bf) as [-> ->]. cbn [fst snd]. by rewrite Bi.
Qed.

Lemma repeat_snoc {A} (a : A) n : repeat a n ++ [a] = repeat a (S n).
Proof. induction n as [|n IH]; [done|]. cbn. by rewrite IH. Qed.

Lemma convergence_of_constant c n :
  (10 <= n)%nat -> converged (_calculate_convergence (repeat c n)) = true.
Proof.
  intros L. replace n with ((n - 10) + 10)%nat by lia.
  rewrite repeat_app. unfold _calculate_convergence.
  assert (E : (length (repeat c (n - 10) ++ repeat c 10) <? 10)%nat = false).
  { apply Nat.ltb_ge. rewrite length_app, !repeat_length. lia. }
  rewrite E. cbn [converged].
  rewrite last_n_app_exact by apply repeat_length.
  by rewrite np_var_constant.
Qed.

(** X18. With no recognised objective every individual has fitness [0],
    so nothing ever beats the first individual evaluated: the search
    returns the first member of the initial population with score [0],
    the history is [0] at every generation, and from ten generations on
    the run is reported as converged. *)
Theorem X18_genetic_without_objectives (config : OptimizationConfig) (g : G) :
  (forall n, n ∈ maximize_names -> n ∉ maximize (objectives config)) ->
  "specific_cost"%string ∉ minimize (objectives config) ->
  (1 <= population_size config)%nat ->
  (1 <= generations config)%nat ->
  exists r first,
    fst (_genetic_optimization rpow config g) = inr r
    /\ head (fst (init_population (population_size config) g)) = Some first
    /\ ga_optimized_parameters r = first
    /\ ga_fitness_score r = Fin 0.0
    /\ ga_fitness_history r = repeat (Fin 0.0) (generations config)
    /\ ((10 <= generations config)%nat ->
        converged (ga_convergence r) = true).
Proof.
  intros M C P K.
  assert (F : forall p, _evaluate_fitness rpow p (objectives config) = 0.0).
  { intros p. unfold _evaluate_fitness. by apply fitness_unrecognised. }
  rewrite genetic_run. cbv zeta. cbn [fst].
  set (i := init_population (population_size config) g).
  pose proof (init_population_length (population_size config) g) as L.
  fold i in L.
  destruct (fst i) as [|first rest] eqn:I; [cbn in L; lia|].
  destruct (generations config) as [|n] eqn:Gn; [lia|].
  change (S n) with (1 + n)%nat. rewrite evolve_split, evolve_one.
  set (s0 := initial_evolution (first :: rest)).
  (* the first generation *)
  assert (S1 : let st1 := fst (generation rpow config s0 (snd i)) in
               best_fitness st1 = Fin 0.0
               /\ best_individual st1 = Some first
               /\ fitness_history st1 = [Fin 0.0]).
  { rewrite generation_run. cbv zeta.
    cbn [fst best_fitness best_individual fitness_history].
    pose proof (evaluate_population_constant (objectives config) 0.0
                  (population s0) F [] (best_fitness s0) (best_individual s0))
      as E.
    unfold evaluate_population. revert E.
    destruct (foldl _ _ (population s0)) as [[scores bf] bi].
    intros [_ E]. destruct (E eq_refl first eq_refl) as [-> ->].
    by cbn. }
  cbv zeta in S1. destruct S1 as (B1 & B2 & B3).
  set (g1 := snd (generation rpow config s0 (snd i))) in *.
  set (st1 := fst (generation rpow config s0 (snd i))) in *.
  (* the generations after it *)
  assert (Sn : forall m g',
             let st := fst (evolve rpow config m st1 g') in
             best_fitness st = Fin 0.0
             /\ best_individual st = Some first
             /\ fitness_history st = repeat (Fin 0.0) (S m)).
  { induction m as [|m IH]; intros g'; [by cbn|].
    replace (S m) with (m + 1)%nat by lia.
    rewrite evolve_split, evolve_one. cbv zeta.
    destruct (IH g') as (I1 & I2 & I3).
    destruct (generation_constant config 0.0 _
                (snd (evolve rpow config m st1 g')) first F I1 I2)
      as (J1 & J2 & J3).
    split; [exact J1|]. split; [exact J2|].
    rewrite J3, I3. replace (S (m + 1)) with (S (S m)) by lia.
    apply (repeat_snoc (Fin 0.0) (S m)). }
  destruct (Sn n g1) as (E1 & E2 & E3). rewrite E2.
  eexists _, first. split; [reflexivity|].
  cbn [ga_optimized_parameters ga_fitness_score ga_fitness_history
       ga_convergence head].
  split; [reflexivity|]. split; [reflexivity|]. split; [exact E1|].
  split; [exact E3|].
  intros T. rewrite E3. unfold finite_values.
  replace (omap finite (repeat (Fin 0.0) (S n))) with (repeat 0.0 (S n)).
  - by apply convergence_of_constant.
  - clear. induction (S n) as [|m IH]; [done|]. cbn. by rewrite <- IH.
Qed.

End GeneticMore.

(** ** Crossover, selection and mutation *)

Lemma variables_NoDup : NoDup variables.
Proof. by apply (bool_decide_unpack _). Qed.

Lemma imap_index_elem {A} (l : list A) j a :
  (j, a) ∈ imap (fun j a => (j, a)) l <-> l !! j = Some a.
Proof.
  rewrite elem_of_lookup_imap. split.
  - intros (i & x & [= -> ->] & E). exact E.
  - intros E. by exists j, a.
Qed.

(** The crossing loop over any list of indexed names without repeated
    name: each name visited is set in both children, from one parent or
    the other; the other names are left as they were. *)
Lemma cross_loop crossover_point (parent1 parent2 : gmap string Q) pairs :
  NoDup pairs.*2 ->
  forall acc : gmap string Q * gmap string Q,
    let r := foldl
      (fun '(child1, child2) '(j, var) =>
         if (j <? crossover_point)%nat
         then (<[var := getitem parent1 var]> child1,
               <[var := getitem parent2 var]> child2)
         else (<[var := getitem parent2 var]> child1,
               <[var := getitem parent1 var]> child2))
      acc pairs in
    (forall j var,
       (j, var) ∈ pairs ->
       r.1 !! var = Some (if (j <? crossover_point)%nat
                          then getitem parent1 var else getitem parent2 var)
       /\ r.2 !! var = Some (if (j <? crossover_point)%nat
                             then getitem parent2 var
                             else getitem parent1 var))
    /\ (forall var,
          var ∉ pairs.*2 ->
          r.1 !! var = acc.1 !! var /\ r.2 !! var = acc.2 !! var).
Proof.
  induction pairs as [|[j0 v0] pairs IH]; intros N [c1 c2].
  - cbn. split; [by intros j var I%elem_of_nil | done].
  - cbn [fmap list_fmap snd] in N. apply NoDup_cons in N as [N0 N].
    cbn [foldl].
    match goal with |- context [foldl _ ?a pairs] =>
      specialize (IH N a) end.
    cbv zeta in IH. destruct IH as [Ia Ib]. split.
    + intros j var [[= -> ->]|I]%elem_of_cons; [|by apply Ia].
      destruct (Ib v0 N0) as [-> ->].
      destruct (j0 <? crossover_point)%nat; cbn [fst snd];
        by rewrite !lookup_insert_eq.
    + intros var V. cbn [fmap list_fmap snd] in V.
      apply not_elem_of_cons in V as [V0 V].
      destruct (Ib var V) as [-> ->].
      destruct (j0 <? crossover_point)%nat; cbn [fst snd];
        by rewrite !lookup_insert_ne.
Qed.

Lemma cross_lookup crossover_point parent1 parent2 :
  let children := cross crossover_point parent1 parent2 in
  (forall j var,
     variables !! j = Some var ->
     children.1 !! var = Some (if (j <? crossover_point)%nat
                               then getitem parent1 var
                               else getitem parent2 var)
     /\ children.2 !! var = Some (if (j <? crossover_point)%nat
                                  then getitem parent2 var
                                  else getitem parent1 var))
  /\ (forall var,
        var ∉ variables ->
        children.1 !! var = None /\ children.2 !! var = None).
Proof.
  unfold cross.
  pose proof (imap_index_snd id variables) as S. cbn [id] in S.
  destruct (cross_loop crossover_point parent1 parent2
              (imap (fun j var => (j, var)) variables)
              ltac:(rewrite S; apply variables_NoDup) (∅, ∅)) as [A B].
  split.
  - intros j var E. apply A. by apply imap_index_elem.
  - intros var V. rewrite S in B. by destruct (B var V) as [-> ->].
Qed.

Lemma lookup_getitem (p : gmap string Q) var v :
  p !! var = Some v -> getitem p var = v.
Proof. unfold getitem. by intros ->. Qed.

(** X19. Crossover at point [p] gives the first child the first [p]
    variables of the first parent and the rest of the second, and the
    second child the complement; the children hold the variables and
    nothing else. Crossing the children again at the same point gives the
    parents back. *)
Theorem X19_crossover_genes (crossover_point : nat)
    (parent1 parent2 : gmap string Q) :
  let children := cross crossover_point parent1 parent2 in
  (forall j var,
     variables !! j = Some var ->
     children.1 !! var = Some (if (j <? crossover_point)%nat
                               then getitem parent1 var
                               else getitem parent2 var)
     /\ children.2 !! var = Some (if (j <? crossover_point)%nat
                                  then getitem parent2 var
                                  else getitem parent1 var))
  /\ dom children.1 = list_to_set variables
  /\ dom children.2 = list_to_set variables
  /\ (dom parent1 = list_to_set variables ->
      dom parent2 = list_to_set variables ->
      cross crossover_point children.1 children.2 = (parent1, parent2)).
Proof.
  intros children.
  destruct (cross_lookup crossover_point parent1 parent2) as [A B].
  fold children in A, B.
  assert (D : forall c : gmap string Q,
            (forall var, var ∈ variables -> is_Some (c !! var)) ->
            (forall var, var ∉ variables -> c !! var = None) ->
            dom c = list_to_set variables).
  { intros c S N. apply set_eq. intros var.
    rewrite elem_of_dom, elem_of_list_to_set. split.
    - intros I. destruct (decide (var ∈ variables)) as [V|V]; [exact V|].
      rewrite (N var V) in I. by destruct I.
    - apply S. }
  split; [exact A|]. split; [|split].
  - apply D; [|intros var V; by apply B].
    intros var [j E]%list_elem_of_lookup. destruct (A j var E) as [-> _].
    by eexists.
  - apply D; [|intros var V; by apply B].
    intros var [j E]%list_elem_of_lookup. destruct (A j var E) as [_ ->].
    by eexists.
  - intros D1 D2.
    destruct (cross_lookup crossover_point children.1 children.2) as [A' B'].
    destruct (cross crossover_point children.1 children.2) as [c1 c2].
    cbn [fst snd] in A', B'.
    assert (K : forall (p : gmap string Q) var,
              dom p = list_to_set variables ->
              var ∈ variables -> p !! var = Some (getitem p var)).
    { intros p var Dp V.
      assert (I : var ∈ dom p) by (rewrite Dp; by apply elem_of_list_to_set).
      apply elem_of_dom in I as [v E]. by rewrite (lookup_getitem _ _ _ E). }
    assert (O : forall (p : gmap string Q) var,
              dom p = list_to_set variables ->
              var ∉ variables -> p !! var = None).
    { intros p var Dp V. apply not_elem_of_dom. rewrite Dp.
      by rewrite elem_of_list_to_set. }
    f_equal; apply map_eq; intros var;
      (destruct (decide (var ∈ variables)) as [V|V];
       [ pose proof V as [j E]%list_elem_of_lookup;
         destruct (A j var E) as [A1 A2]; destruct (A' j var E) as [A1' A2'];
         rewrite (lookup_getitem _ _ _ A1), (lookup_getitem _ _ _ A2)
           in A1', A2';
         rewrite ?A1', ?A2', K by done; by destruct (j <? crossover_point)%nat
       | destruct (B' var V) as [B1 B2]; rewrite ?B1, ?B2; by rewrite O ]).
Qed.

Lemma X19_crossover_genes_witness :
  cross 3 (cross 3 (_array_to_params x0) (grid_params 3 800)).1
          (cross 3 (_array_to_params x0) (grid_params 3 800)).2
  = (_array_to_params x0, grid_params 3 800).
Proof.
  apply (proj2 (proj2 (proj2 (X19_crossover_genes 3 (_array_to_params x0)
                                (grid_params 3 800))))).
  - unfold _array_to_params. rewrite dom_list_to_map_L. reflexivity.
  - unfold grid_params. rewrite dom_list_to_map_L. reflexivity.
Defined.

(** [np.argmax] returns the position of a largest entry. *)
Lemma argmax_from_spec l :
  forall prefix best_i best,
    (best_i < length prefix)%nat ->
    nth best_i (prefix ++ l) 0 = best ->
    Forall (fun y => y <= best) prefix ->
    let k := argmax_from (length prefix) best_i best l in
    (k < length (prefix ++ l))%nat
    /\ Forall (fun y => y <= nth k (prefix ++ l) 0) (prefix ++ l).
Proof.
  induction l as [|x l IH]; intros prefix best_i best B E F.
  - cbn. rewrite app_nil_r in *. split; [exact B|]. by rewrite E.
  - cbn [argmax_from].
    replace (prefix ++ x :: l) with ((prefix ++ [x]) ++ l) in *
      by (by rewrite <- app_assoc).
    replace (S (length prefix)) with (length (prefix ++ [x]))
      by (rewrite length_app; cbn; lia).
    destruct (ltb best x) eqn:L.
    + apply ltb_lt in L. apply IH.
      * rewrite length_app. cbn. lia.
      * rewrite <- app_assoc. cbn. by rewrite nth_middle.
      * apply Forall_app. split; [|by apply Forall_singleton, Qle_refl].
        eapply Forall_impl; [exact F|]. cbn. intros y Y. lra.
    + apply ltb_ge in L. apply IH.
      * rewrite length_app. cbn. lia.
      * exact E.
      * apply Forall_app. split; [exact F | by apply Forall_singleton].
Qed.

Lemma np_argmax_spec l :
  l <> [] ->
  (np_argmax l < length l)%nat
  /\ Forall (fun y => y <= nth (np_argmax l) l 0) l.
Proof.
  destruct l as [|x l]; [done|]. intros _. unfold np_argmax.
  apply (argmax_from_spec l [x] 0%nat x); cbn; [lia | done |].
  by apply Forall_singleton, Qle_refl.
Qed.

Lemma nth_map_lt {A} (f : A -> Q) (l : list A) k d :
  (k < length l)%nat -> nth k (map f l) 0 = f (nth k l d).
Proof.
  revert k. induction l as [|a l IH]; intros [|k] L; cbn in *;
    try lia; [done|]. apply IH. lia.
Qed.

Lemma for_each_append_id {G A} (l : list A) (f : A -> Rand G A) :
  (forall a g, fst (f a g) = a) ->
  forall acc g,
    fst (for_each l (fun acc a => let! b := f a in ret (acc ++ [b])) acc g)
    = acc ++ l.
Proof.
  intros F. induction l as [|a l IH]; intros acc g.
  - cbn. by rewrite app_nil_r.
  - rewrite for_each_cons, IH, bind_run. unfold ret. cbn [fst].
    by rewrite F, <- app_assoc.
Qed.

Section SelectionMore.

Context {G : Type} {RNG : NumpyRandom G}.

(** X20. A tournament returns a member of the population: the one, of
    the three positions sampled, whose score is largest. When the scores
    are the fitnesses of the population, as they are in every generation,
    no sampled individual is fitter than the winner. *)
Theorem X20_tournament_winner (ranges : NumpyRandomRanges G)
    (population : list (gmap string Q)) (fitness_scores : list Q) (g : G) :
  (0 < length population)%nat ->
  let sampled := fst (np_random_choice (length population) 3 g) in
  exists winner_idx,
    winner_idx ∈ sampled
    /\ (winner_idx < length population)%nat
    /\ fst (tournament population fitness_scores g)
       = nth winner_idx population ∅
    /\ Forall (fun i => nth i fitness_scores 0 <= nth winner_idx fitness_scores 0)
         sampled
    /\ forall fitness : gmap string Q -> Q,
         fitness_scores = map fitness population ->
         Forall (fun i =>
                   fitness (nth i population ∅)
                   <= fitness (fst (tournament population fitness_scores g)))
           sampled.
Proof.
  intros P sampled.
  pose proof (choice_range G ranges (length population) 3 g P) as R.
  pose proof (choice_length G ranges (length population) 3 g P) as L.
  fold sampled in R, L.
  set (tournament_fitness := map (fun i => nth i fitness_scores 0) sampled).
  assert (N : tournament_fitness <> []).
  { intros E. apply (f_equal length) in E.
    unfold tournament_fitness in E. rewrite length_map, L in E.
    discriminate E. }
  destruct (np_argmax_spec tournament_fitness N) as [K M].
  unfold tournament_fitness in K. rewrite length_map in K.
  set (k := np_argmax tournament_fitness) in *.
  assert (W : nth k sampled O ∈ sampled).
  { apply list_elem_of_In, nth_In, K. }
  assert (Wl : (nth k sampled O < length population)%nat).
  { rewrite Forall_forall in R. by apply R. }
  assert (T : fst (tournament population fitness_scores g)
              = nth (nth k sampled O) population ∅).
  { unfold tournament. rewrite bind_run. reflexivity. }
  assert (S : Forall (fun i => nth i fitness_scores 0
                               <= nth (nth k sampled O) fitness_scores 0)
                sampled).
  { apply Forall_forall. intros i I.
    rewrite Forall_forall in M.
    assert (Mk : nth k tournament_fitness 0
                 = nth (nth k sampled O) fitness_scores 0)
      by (apply (nth_map_lt (fun i => nth i fitness_scores 0)), K).
    rewrite <- Mk. apply M. unfold tournament_fitness.
    apply list_elem_of_In.
    apply (in_map (fun i => nth i fitness_scores 0)).
    by apply list_elem_of_In. }
  exists (nth k sampled O).
  split; [exact W|]. split; [exact Wl|]. split; [exact T|]. split; [exact S|].
  intros fitness E. rewrite T.
  apply Forall_forall. intros i I.
  rewrite Forall_forall in S, R. specialize (S i I). specialize (R i I).
  rewrite E in S.
  by rewrite (nth_map_lt fitness population i ∅ R),
             (nth_map_lt fitness population _ ∅ Wl) in S.
Qed.

(** X21. With a mutation rate of [0] or less no gene is ever mutated:
    the mutation step returns the population it was given. *)
Theorem X21_no_mutation (unit : NumpyRandomUnit G) (rate : Q)
    (new_population : list (gmap string Q)) (g : G) :
  rate <= 0 ->
  fst (mutation rate new_population g) = new_population.
Proof.
  intros Z. unfold mutation.
  rewrite for_each_append_id; [done|].
  intros individual g'. unfold mutate.
  apply (for_each_invariant (fun p => p = individual)); [|done].
  intros s var g'' _ ->. rewrite bind_run.
  pose proof (random_range G unit g'') as [R _].
  assert (F : ltb (fst (np_random_random g'')) rate = false)
    by (apply ltb_ge; lra).
  by rewrite F.
Qed.

End SelectionMore.

Lemma lcg_random_unit : NumpyRandomUnit Z.
Proof.
  split. intros s. cbn.
  pose proof (lcg_next_range s) as [L U].
  unfold Run.lcg_unit, Qle, Qlt. cbn. unfold Run.modulus in U. lia.
Qed.

Lemma X20_tournament_winner_witness :
  let population := [_array_to_params x0; grid_params 3 800] in
  exists winner_idx,
    winner_idx ∈ fst (np_random_choice 2 3 42%Z)
    /\ fst (tournament population [0.3; 0.2] 42%Z)
       = nth winner_idx population ∅.
Proof.
  destruct (X20_tournament_winner lcg_ranges
              [_array_to_params x0; grid_params 3 800] [0.3; 0.2] 42%Z)
    as (w & W & _ & T & _).
  - cbn. lia.
  - exists w. by split.
Defined.

Lemma X21_no_mutation_witness :
  fst (mutation 0 [_array_to_params x0; grid_params 3 800] 42%Z)
  = [_array_to_params x0; grid_params 3 800].
Proof.
  apply (X21_no_mutation lcg_random_unit 0). discriminate.
Defined.

Lemma X17_genetic_best_ever_witness :
  let config :=
    Run.make_config Run.efficiency_only None (Member GENETIC) 4 3 in
  exists r,
    fst (_genetic_optimization Run.fixed_pow config 42%Z) = inr r
    /\ ga_fitness_score r
       = Fin (_evaluate_fitness Run.fixed_pow (ga_optimized_parameters r)
                Run.efficiency_only).
Proof.
  cbv zeta.
  destruct (fst (_genetic_optimization Run.fixed_pow
                   (Run.make_config Run.efficiency_only None (Member GENETIC)
                      4 3) 42%Z)) as [e|r] eqn:E;
    [vm_compute in E; discriminate|].
  exists r. split; [reflexivity|].
  exact (proj1 (X17_genetic_best_ever Run.fixed_pow
                  (Run.make_config Run.efficiency_only None (Member GENETIC)
                     4 3) 42%Z r E)).
Defined.

Lemma X18_genetic_without_objectives_witness :
  let config := Run.make_config Run.no_objectives None (Member GENETIC) 4 12 in
  exists r,
    fst (_genetic_optimization Run.fixed_pow config 42%Z) = inr r
    /\ ga_fitness_history r = repeat (Fin 0.0) 12
    /\ converged (ga_convergence r) = true.
Proof.
  cbv zeta.
  destruct (X18_genetic_without_objectives Run.fixed_pow
              (Run.make_config Run.no_objectives None (Member GENETIC) 4 12)
              42%Z) as (r & first & E & _ & _ & _ & H & C).
  - intros n _. apply not_elem_of_nil.
  - apply not_elem_of_nil.
  - cbn. lia.
  - cbn. lia.
  - exists r. split; [exact E|]. split; [exact H|]. apply C. cbn. lia.
Defined.

Section PopulationMore.

Variable rpow : Q -> Q -> Q.
Context {G : Type} {RNG : NumpyRandom G}.

(** X22. Crossover keeps the size of the population, and in a
    population of odd size the last individual has no partner: it comes
    out of the crossover as it went in. *)
Theorem X22_crossover_population (n : nat)
    (new_population : list (gmap string Q)) (g : G) :
  length new_population = n ->
  length (fst (crossover n new_population g)) = n
  /\ (Nat.Odd n ->
      last (fst (crossover n new_population g)) = last new_population).
Proof.
  intros L. split; [by rewrite crossover_length|].
  intros [m O]. rewrite !last_lookup, crossover_length, L.
  unfold crossover.
  apply (for_each_invariant
           (fun l => l !! Nat.pred n = new_population !! Nat.pred n));
    [|done].
  intros s i g' I H. rewrite bind_run.
  destruct (ltb _ 0.8); [|exact H].
  rewrite bind_run. destruct (cross _ _ _) as [child1 child2].
  unfold ret. cbn [fst].
  unfold range3 in I. apply range_from_elem in I as (k & K & ->).
  assert (D : (2 * ((n - 1 - 0 + (2 - 1)) / 2) <= n - 1 - 0 + (2 - 1))%nat)
    by apply Nat.Div0.mul_div_le.
  rewrite !list_lookup_insert_ne by lia. exact H.
Qed.

(** X23. The selection returns as many individuals as asked for, each a
    member of the population it selects from. *)
Theorem X23_selection_members (ranges : NumpyRandomRanges G) (n : nat)
    (population : list (gmap string Q)) (fitness_scores : list Q) (g : G) :
  length population = n ->
  length (fst (selection n population fitness_scores g)) = n
  /\ Forall (fun individual => individual ∈ population)
       (fst (selection n population fitness_scores g)).
Proof.
  intros L. split; [apply selection_length|].
  unfold selection. apply for_each_append_Forall; [|constructor].
  intros i g' I. apply elem_of_seq in I.
  unfold tournament. rewrite bind_run. unfold ret. cbn [fst].
  apply nth_Forall_lt; [by apply Forall_forall|].
  apply (nth_Forall (fun i => (i < length population)%nat)); [|lia].
  apply (choice_range G ranges). lia.
Qed.


End PopulationMore.

(** X25. The parameter dictionary built from an array lists the
    variables in the order of [self.bounds]: reading the seven variables
    back in that order returns the array, and the local bounds list of the
    gradient search is [self.bounds] in the same order. *)
Theorem X25_array_round_trip (x : list Q) :
  length x = 7%nat ->
  map (getitem (_array_to_params x)) variables = x
  /\ dom (_array_to_params x) = list_to_set variables
  /\ gradient_bounds = map bounds_getitem variables.
Proof.
  intros L. do 8 (destruct x as [|? x]; try discriminate L).
  split; [reflexivity|]. split; [|reflexivity].
  unfold _array_to_params. rewrite dom_list_to_map_L. reflexivity.
Qed.

Lemma X22_crossover_population_witness :
  last (fst (crossover 3
               [_array_to_params x0; grid_params 3 800; grid_params 25 1600]
               42%Z))
  = Some (grid_params 25 1600).
Proof.
  apply (proj2 (X22_crossover_population 3
                  [_array_to_params x0; grid_params 3 800;
                   grid_params 25 1600] 42%Z eq_refl)).
  exists 1%nat. reflexivity.
Defined.

Lemma X23_selection_members_witness :
  length (fst (selection 2 [_array_to_params x0; grid_params 3 800]
                 [0.3; 0.2] 42%Z)) = 2%nat.
Proof.
  apply (X23_selection_members lcg_ranges 2
           [_array_to_params x0; grid_params 3 800] [0.3; 0.2] 42%Z).
  reflexivity.
Defined.


Lemma X25_array_round_trip_witness :
  map (getitem (_array_to_params x0)) variables = x0.
Proof. apply (X25_array_round_trip x0). reflexivity. Defined.

(** ** The Pareto search of the older copy *)

Lemma legacy_insert_sorted sol sorted :
  legacy_efficiency_descending sorted ->
  legacy_efficiency_descending (Legacy.insert_by_efficiency sol sorted).
Proof.
  unfold legacy_efficiency_descending.
  induction 1 as [|s rest S IH F]; cbn; [repeat constructor|].
  destruct (ltb (Legacy.efficiency sol) (Legacy.efficiency s)) eqn:L.
  - apply ltb_lt in L. constructor; [exact IH|].
    apply Forall_forall. intros b I.
    apply legacy_insert_elem in I as [->|I]; [lra|].
    rewrite Forall_forall in F. by apply F.
  - apply ltb_ge in L. constructor; [by constructor|].
    constructor; [exact L|].
    eapply Forall_impl; [exact F|]. cbn. intros b B. lra.
Qed.

Lemma legacy_sort_sorted l :
  legacy_efficiency_descending (Legacy.sort_by_efficiency l).
Proof.
  induction l as [|a l IH]; cbn; [constructor|].
  by apply legacy_insert_sorted.
Qed.

(** X26. In the older copy too the frontier is ordered by efficiency,
    larger first, and holds only sampled solutions; with constraints given
    every sampled solution passes them, and at most [100 * 100] solutions
    are sampled. *)
Theorem X26_legacy_frontier (rpow : Q -> Q -> Q)
    (constraints : option (gmap string Q)) :
  let solutions := Legacy.sample_solutions rpow constraints in
  let frontier := Legacy._pareto_optimization rpow constraints in
  legacy_efficiency_descending frontier
  /\ Forall (fun s => s ∈ solutions) frontier
  /\ (length solutions <= 100 * 100)%nat
  /\ match constraints with
     | Some c =>
         Forall (fun s => _check_constraints (Legacy.performance s) c = true)
           solutions
     | None => length solutions = (100 * 100)%nat
     end.
Proof.
  cbv zeta. unfold Legacy._pareto_optimization.
  split; [apply legacy_sort_sorted|]. split; [|split].
  - apply Forall_forall. intros s I.
    by apply legacy_sort_elem, legacy_frontier_spec in I as [I _].
  - unfold Legacy.sample_solutions.
    etransitivity; [apply (flat_map_length_le _ _ 100)|].
    + intros pr. etransitivity; [apply (flat_map_length_le _ _ 1)|].
      * intros tt. cbv zeta. destruct (infeasible _ _); cbn; lia.
      * rewrite np_linspace_length. reflexivity.
    + rewrite np_linspace_length. reflexivity.
  - destruct constraints as [c|].
    + apply Forall_forall. intros s I. apply list_elem_of_In in I.
      unfold Legacy.sample_solutions in I.
      apply in_flat_map in I as (pr & _ & I).
      apply in_flat_map in I as (tt & _ & I).
      destruct (infeasible _ _) eqn:F; [destruct I|].
      destruct I as [<-|[]]. cbn [Legacy.performance].
      by apply infeasible_checked.
    + unfold Legacy.sample_solutions.
      rewrite (flat_map_length_eq _ _ 100), np_linspace_length; [reflexivity|].
      intros pr.
      rewrite (flat_map_length_eq _ _ 1), np_linspace_length; [reflexivity|].
      intros tt. reflexivity.
Qed.
